(** * Fact-Safe-Elder: the rule-based detection engine and the ensemble voter

    A shallow embedding of
    - [backend/app/services/detection.py]  (class [DetectionEngine]),
    - [backend/app/core/logging_config.py]  (the decorator
      [log_detection_result] and the mixin [LoggerMixin]) and
    - [backend/app/services/ai_models.py]  (class [AIModelManager]: the
      predictors, [ensemble_predict] and [_weighted_voting]),
    followed by the properties of the scoring, caching, statistics and voting
    code.

    Conventions of the embedding
    - a Python [str] is a list of Unicode code points ([pystr]);
    - a Python [float] is an exact rational ([Q]); all the constants of the
      code (0.05, 0.15, 0.6, ...) are decimal fractions, compared up to [==];
    - a Python [int] is a [Z], or an [N] for the counters of the statistics,
      which start at 0 and are only ever incremented;
    - a [dict] is an association list in insertion order;
    - objects that the code shares and mutates ([DetectionResult]) live in an
      explicit heap and are passed around by reference;
    - an exception is the left injection of a sum; a method that can raise
      after it has changed the engine returns the sum next to the state. *)

From Stdlib Require Import QArith Qminmax Lqa.
From stdpp Require Import strings numbers base option list.

(* ===================================================================== *)
(** ** Python strings *)
(* ===================================================================== *)

(** A [str] is a sequence of Unicode code points. *)
Definition pystr := list N.

(** Decoding of the UTF-8 bytes of a Rocq string literal, so that the tables
    of the source can be written down as they are.  Ill-formed input is
    decoded leniently; it is only ever applied to literals. *)
Fixpoint utf8_decode_bytes (fuel : nat) (bs : list N) : pystr :=
  match fuel with
  | O => []
  | S fuel' =>
      match bs with
      | [] => []
      | b0 :: r0 =>
          if (b0 <? 128)%N then b0 :: utf8_decode_bytes fuel' r0
          else if (b0 <? 224)%N then
            match r0 with
            | b1 :: r1 =>
                ((b0 - 192) * 64 + (b1 - 128))%N :: utf8_decode_bytes fuel' r1
            | _ => []
            end
          else if (b0 <? 240)%N then
            match r0 with
            | b1 :: b2 :: r2 =>
                ((b0 - 224) * 4096 + (b1 - 128) * 64 + (b2 - 128))%N
                  :: utf8_decode_bytes fuel' r2
            | _ => []
            end
          else
            match r0 with
            | b1 :: b2 :: b3 :: r3 =>
                ((b0 - 240) * 262144 + (b1 - 128) * 4096
                 + (b2 - 128) * 64 + (b3 - 128))%N
                  :: utf8_decode_bytes fuel' r3
            | _ => []
            end
      end
  end.

Definition bytes_of_string (s : string) : list N :=
  map Ascii.N_of_ascii (String.list_ascii_of_string s).

Definition u (s : string) : pystr :=
  let bs := bytes_of_string s in utf8_decode_bytes (length bs) bs.

(** [text.encode('utf-8')]: raises [UnicodeEncodeError] (here [None]) on a
    lone surrogate; a [str] holds no code point above U+10FFFF. *)
Definition utf8_encode_char (c : N) : option (list N) :=
  if (c <? 128)%N then Some [c]
  else if (c <? 2048)%N then Some [192 + c / 64; 128 + c mod 64]%N
  else if (c <? 65536)%N then
    if ((55296 <=? c) && (c <=? 57343))%N then None
    else Some [224 + c / 4096; 128 + (c / 64) mod 64; 128 + c mod 64]%N
  else if (c <? 1114112)%N then
    Some [240 + c / 262144; 128 + (c / 4096) mod 64;
          128 + (c / 64) mod 64; 128 + c mod 64]%N
  else None.

Fixpoint utf8_encode (t : pystr) : option (list N) :=
  match t with
  | [] => Some []
  | c :: t' =>
      match utf8_encode_char c, utf8_encode t' with
      | Some bs, Some r => Some (bs ++ r)
      | _, _ => None
      end
  end.

(** [needle in hay] for strings: substring test. *)
Fixpoint startswith (hay needle : pystr) : bool :=
  match needle, hay with
  | [], _ => true
  | _ :: _, [] => false
  | a :: n', b :: h' => (a =? b)%N && startswith h' n'
  end.

Fixpoint contains (hay needle : pystr) : bool :=
  startswith hay needle
  || match hay with
     | [] => false
     | _ :: h' => contains h' needle
     end.

(** [str(n)] for a non-negative integer. *)
Definition digit_char (d : N) : N := (48 + d)%N.

Fixpoint str_of_uint (d : Decimal.uint) : pystr :=
  match d with
  | Decimal.Nil => []
  | Decimal.D0 r => digit_char 0 :: str_of_uint r
  | Decimal.D1 r => digit_char 1 :: str_of_uint r
  | Decimal.D2 r => digit_char 2 :: str_of_uint r
  | Decimal.D3 r => digit_char 3 :: str_of_uint r
  | Decimal.D4 r => digit_char 4 :: str_of_uint r
  | Decimal.D5 r => digit_char 5 :: str_of_uint r
  | Decimal.D6 r => digit_char 6 :: str_of_uint r
  | Decimal.D7 r => digit_char 7 :: str_of_uint r
  | Decimal.D8 r => digit_char 8 :: str_of_uint r
  | Decimal.D9 r => digit_char 9 :: str_of_uint r
  end.

Definition str_of_N (n : N) : pystr := str_of_uint (N.to_uint n).

(** The parts of CPython's Unicode database that the code reaches through
    [str.lower], [str.strip] and the classes [\s], [\w], [\d] of [re], and
    through [int] on a run of decimal digits.  They are data of the
    interpreter, not of the repository: the development is parametric in
    them. *)
Class Unicode := {
  py_lower : pystr -> pystr;      (* str.lower() *)
  py_isspace : N -> bool;         (* str.isspace(), \s *)
  py_isword : N -> bool;          (* \w *)
  py_isdigit : N -> bool;         (* \d *)
  py_digit_value : N -> N         (* the value of a decimal digit *)
}.

(** An instance that agrees with CPython on Basic Latin, on the Unicode white
    space characters, and on the caseless CJK ideographs and punctuation, in
    which all the concrete texts below are written. *)
Definition ascii_lower_char (c : N) : N :=
  if ((65 <=? c) && (c <=? 90))%N then (c + 32)%N else c.

Definition basic_isspace (c : N) : bool :=
  ((9 <=? c) && (c <=? 13) || (28 <=? c) && (c <=? 32)
   || (c =? 133) || (c =? 160) || (c =? 5760)
   || (8192 <=? c) && (c <=? 8202)
   || (c =? 8232) || (c =? 8233) || (c =? 8239) || (c =? 8287)
   || (c =? 12288))%N.

Definition basic_isdigit (c : N) : bool := ((48 <=? c) && (c <=? 57))%N.

Definition basic_isword (c : N) : bool :=
  (basic_isdigit c
   || (65 <=? c) && (c <=? 90) || (97 <=? c) && (c <=? 122) || (c =? 95)
   || (19968 <=? c) && (c <=? 40959))%N.

#[export] Instance basic_unicode : Unicode := {|
  py_lower := map ascii_lower_char;
  py_isspace := basic_isspace;
  py_isword := basic_isword;
  py_isdigit := basic_isdigit;
  py_digit_value := fun c => (c - 48)%N
|}.

(* ===================================================================== *)
(** ** The fragment of [re] that the detectors use *)
(* ===================================================================== *)

(** Patterns.  A character class is a predicate on code points. *)
Inductive regex : Type :=
| Eps
| Cls (p : N -> bool)
| Seq (r1 r2 : regex)
| Alt (r1 r2 : regex)
| Star (r : regex).

Definition Chr (c : N) : regex := Cls (N.eqb c).
Definition Plus (r : regex) : regex := Seq r (Star r).

Fixpoint Lit (s : pystr) : regex :=
  match s with
  | [] => Eps
  | [c] => Chr c
  | c :: s' => Seq (Chr c) (Lit s')
  end.

Fixpoint Rep (n : nat) (r : regex) : regex :=
  match n with
  | O => Eps
  | S O => r
  | S n' => Seq r (Rep n' r)
  end.

(** [.] matches anything but a newline. *)
Definition Dot : regex := Cls (fun c => negb (c =? 10)%N).

(** The backtracking matcher: [ends r t] lists, in the order in which the
    matcher tries them, the suffixes of [t] left over by each way of matching
    [r] at the start of [t].  Repetition is greedy; an iteration that makes no
    progress is not repeated. *)
Fixpoint star_ends (step : pystr -> list pystr) (fuel : nat) (t : pystr)
  : list pystr :=
  match fuel with
  | O => [t]
  | S fuel' =>
      flat_map
        (fun t' =>
           if (length t' <? length t)%nat then star_ends step fuel' t'
           else [])
        (step t)
      ++ [t]
  end.

Fixpoint ends (r : regex) (t : pystr) : list pystr :=
  match r with
  | Eps => [t]
  | Cls p =>
      match t with
      | c :: t' => if p c then [t'] else []
      | [] => []
      end
  | Seq r1 r2 => flat_map (ends r2) (ends r1 t)
  | Alt r1 r2 => ends r1 t ++ ends r2 t
  | Star r1 => star_ends (ends r1) (length t) t
  end.

Definition matches_at (r : regex) (t : pystr) : bool :=
  match ends r t with
  | [] => false
  | _ :: _ => true
  end.

(** [re.search(r, t)] as a truth value. *)
Fixpoint re_search (r : regex) (t : pystr) : bool :=
  matches_at r t
  || match t with
     | [] => false
     | _ :: t' => re_search r t'
     end.

(** [re.findall] for a pattern of the shape [(g)post] with one group: the
    texts captured by the group in the successive non-overlapping matches,
    scanning from the left.  Neither use in the code can match the empty
    string. *)
Definition first_match (g post : regex) (t : pystr) : option (pystr * pystr) :=
  head
    (flat_map
       (fun t1 =>
          map (fun t2 => (take (length t - length t1) t, t2)) (ends post t1))
       (ends g t)).

Fixpoint re_findall (fuel : nat) (g post : regex) (t : pystr) : list pystr :=
  match fuel with
  | O => []
  | S fuel' =>
      match first_match g post t with
      | Some (grp, rest) =>
          if (length rest <? length t)%nat
          then grp :: re_findall fuel' g post rest
          else match t with
               | [] => [grp]
               | _ :: t' => grp :: re_findall fuel' g post t'
               end
      | None =>
          match t with
          | [] => []
          | _ :: t' => re_findall fuel' g post t'
          end
      end
  end.

(* ===================================================================== *)
(** ** [hashlib.md5]  (RFC 1321) *)
(* ===================================================================== *)

(** 32-bit words are [N]s below [2^32], with the wrap-around written out. *)
Definition w32 (x : N) : N := (x mod 4294967296)%N.

Definition rotl32 (x s : N) : N :=
  w32 (N.lor (N.shiftl x s) (N.shiftr x (32 - s))).

Definition not32 (x : N) : N := N.lxor x 4294967295.

Definition md5_K : list N :=
  [ 3614090360; 3905402710; 606105819; 3250441966;
    4118548399; 1200080426; 2821735955; 4249261313;
    1770035416; 2336552879; 4294925233; 2304563134;
    1804603682; 4254626195; 2792965006; 1236535329;
    4129170786; 3225465664; 643717713; 3921069994;
    3593408605; 38016083; 3634488961; 3889429448;
    568446438; 3275163606; 4107603335; 1163531501;
    2850285829; 4243563512; 1735328473; 2368359562;
    4294588738; 2272392833; 1839030562; 4259657740;
    2763975236; 1272893353; 4139469664; 3200236656;
    681279174; 3936430074; 3572445317; 76029189;
    3654602809; 3873151461; 530742520; 3299628645;
    4096336452; 1126891415; 2878612391; 4237533241;
    1700485571; 2399980690; 4293915773; 2240044497;
    1873313359; 4264355552; 2734768916; 1309151649;
    4149444226; 3174756917; 718787259; 3951481745 ]%N.

Definition md5_S : list N :=
  [ 7; 12; 17; 22; 7; 12; 17; 22; 7; 12; 17; 22; 7; 12; 17; 22;
    5; 9; 14; 20; 5; 9; 14; 20; 5; 9; 14; 20; 5; 9; 14; 20;
    4; 11; 16; 23; 4; 11; 16; 23; 4; 11; 16; 23; 4; 11; 16; 23;
    6; 10; 15; 21; 6; 10; 15; 21; 6; 10; 15; 21; 6; 10; 15; 21 ]%N.

Definition md5_pad (msg : list N) : list N :=
  let len := N.of_nat (length msg) in
  let zeros := N.to_nat ((119 - len mod 64) mod 64)%N in
  let bits := (8 * len)%N in
  msg ++ [128%N] ++ replicate zeros 0%N
      ++ map (fun i => (N.shiftr bits (8 * N.of_nat i)) mod 256)%N (seq 0 8).

(** Little-endian 32-bit words of a block of bytes. *)
Fixpoint le_words (fuel : nat) (bs : list N) : list N :=
  match fuel with
  | O => []
  | S fuel' =>
      match bs with
      | b0 :: b1 :: b2 :: b3 :: r =>
          (b0 + 256 * b1 + 65536 * b2 + 16777216 * b3)%N :: le_words fuel' r
      | _ => []
      end
  end.

Definition md5_state : Type := N * N * N * N.

Definition md5_round (M : list N) (st : md5_state) (i : nat) : md5_state :=
  let '(A, B, C, D) := st in
  let '(F, g) :=
    if (i <? 16)%nat then
      (N.lor (N.land B C) (N.land (not32 B) D), i)
    else if (i <? 32)%nat then
      (N.lor (N.land D B) (N.land (not32 D) C), (5 * i + 1) mod 16)%nat
    else if (i <? 48)%nat then
      (N.lxor (N.lxor B C) D, (3 * i + 5) mod 16)%nat
    else
      (N.lxor C (N.lor B (not32 D)), (7 * i) mod 16)%nat in
  let F' := w32 (F + A + nth i md5_K 0 + nth g M 0)%N in
  (D, w32 (B + rotl32 F' (nth i md5_S 0))%N, B, C).

Definition md5_block (st : md5_state) (block : list N) : md5_state :=
  let M := le_words 16 block in
  let '(a0, b0, c0, d0) := st in
  let '(A, B, C, D) := fold_left (md5_round M) (seq 0 64) st in
  (w32 (a0 + A), w32 (b0 + B), w32 (c0 + C), w32 (d0 + D))%N.

Fixpoint md5_blocks (fuel : nat) (st : md5_state) (bs : list N) : md5_state :=
  match fuel with
  | O => st
  | S fuel' =>
      match bs with
      | [] => st
      | _ => md5_blocks fuel' (md5_block st (take 64 bs)) (drop 64 bs)
      end
  end.

Definition hex_digit (d : N) : N :=
  if (d <? 10)%N then (48 + d)%N else (87 + d)%N.

Definition hex_byte (b : N) : pystr := [hex_digit (b / 16); hex_digit (b mod 16)].

Definition le_bytes32 (w : N) : list N :=
  map (fun i => (N.shiftr w (8 * N.of_nat i)) mod 256)%N (seq 0 4).

(** [hashlib.md5(bs).hexdigest()] *)
Definition md5_hexdigest (bs : list N) : pystr :=
  let padded := md5_pad bs in
  let '(a, b, c, d) :=
    md5_blocks (length padded)
      (1732584193, 4023233417, 2562383102, 271733878)%N padded in
  flat_map hex_byte (le_bytes32 a ++ le_bytes32 b ++ le_bytes32 c ++ le_bytes32 d).

(* ===================================================================== *)
(** ** Data model *)
(* ===================================================================== *)

(** Modelled from the spec: [app.models.detection.RiskLevel], which
    [detection.py] imports and whose declaration is not part of the sources
    at hand.  The spec gives the closed enumeration Safe < Warning < Danger;
    the code uses the members [SAFE], [WARNING] and [DANGER]. *)
Inductive RiskLevel : Type := SAFE | WARNING | DANGER.

#[export] Instance RiskLevel_eq_dec : EqDecision RiskLevel.
Proof. solve_decision. Defined.

(** Modelled from the spec: [app.models.detection.DetectionResult], imported
    by [detection.py]; the fields are those that [_perform_detection] passes
    to the constructor.  The fallback result of [detect_text] leaves
    [categories] and [keywords] to their defaults, taken to be empty. *)
Record DetectionResult : Type := {
  level : RiskLevel;
  score : Q;
  confidence : Q;
  message : pystr;
  reasons : list pystr;
  suggestions : list pystr;
  categories : list pystr;
  keywords : list pystr;
  detection_id : pystr
}.

(** Modelled from the spec: [app.models.detection.DetectionStats], imported
    by [detection.py]; the fields are those that [_update_statistics] and
    [get_statistics] use, all starting at zero.  The counters are only ever
    incremented, hence natural numbers. *)
Record DetectionStats : Type := {
  total_detections : N;
  safe_count : N;
  warning_count : N;
  danger_count : N;
  avg_processing_time : Q
}.

Definition DetectionStats_init : DetectionStats :=
  {| total_detections := 0; safe_count := 0; warning_count := 0;
     danger_count := 0; avg_processing_time := 0 |}.

(* ===================================================================== *)
(** ** [DetectionEngine]: the keyword table *)
(* ===================================================================== *)

(** [_load_keywords] *)
Definition _load_keywords : list (pystr * list pystr) :=
  [ (u "financial_fraud",
     map u
       [ "保证收益"; "无风险投资"; "月入万元"; "稳赚不赔"; "高收益";
         "内幕消息"; "股票推荐"; "期货黄金"; "虚拟货币"; "数字货币";
         "挖矿"; "ico"; "区块链投资"; "外汇交易"; "原油投资";
         "贵金属投资"; "邮币卡"; "艺术品投资"; "红酒投资";
         "传销"; "微商"; "代理"; "加盟费"; "入会费"; "会员费";
         "拉人头"; "层级分销"; "金字塔"; "多层次营销";
         "无抵押贷款"; "秒批"; "黑户贷款"; "征信修复"; "代办信用卡";
         "花呗提现"; "借呗套现"; "网贷"; "裸贷"; "高利贷";
         "信用卡套现"; "pos机"; "刷单"; "代还信用卡";
         "限时优惠"; "马上行动"; "机会难得"; "不要错过"; "立即抢购";
         "仅限今天"; "名额有限"; "先到先得"; "绝密消息" ]%string);
    (u "medical_fraud",
     map u
       [ "包治百病"; "神奇疗效"; "祖传秘方"; "一次根治"; "永不复发";
         "药到病除"; "立竿见影"; "奇迹般康复"; "绝对有效";
         "100%治愈"; "三天见效"; "一周康复";
         "医院不告诉你"; "医生都在用"; "专家推荐"; "权威认证";
         "国际领先"; "诺贝尔奖"; "美国进口"; "德国技术";
         "中科院研发"; "军工技术"; "航天科技";
         "癌症克星"; "延年益寿"; "排毒养颜"; "减肥神器";
         "壮阳补肾"; "丰胸美白"; "抗衰老"; "增高神器";
         "明目护眼"; "护肝养胃"; "补脑益智"; "强身健体";
         "保健品"; "营养品"; "特效药"; "偏方"; "土方";
         "民间验方"; "宫廷秘方"; "古方"; "中药秘方";
         "三无产品"; "假药"; "违禁药"; "激素药" ]%string);
    (u "general_fraud",
     map u
       [ "加微信"; "联系qq"; "私信我"; "留电话"; "扫码进群";
         "微信号"; "qq群"; "电话咨询"; "在线客服"; "联系客服";
         "转账"; "汇款"; "支付宝"; "微信支付"; "银行卡"; "打款";
         "预付款"; "定金"; "押金"; "保证金"; "手续费";
         "中奖"; "恭喜获奖"; "幸运用户"; "免费领取"; "0元购";
         "秒杀"; "特价"; "清仓"; "亏本甩卖"; "跳楼价";
         "赶紧"; "立即"; "马上"; "快速"; "紧急"; "限时";
         "截止今晚"; "最后一天"; "错过后悔"; "机不可失" ]%string);
    (u "emotional_manipulation",
     map u
       [ "可怜"; "救救"; "帮帮"; "求助"; "捐款"; "爱心";
         "善心"; "做好事"; "积德"; "功德"; "报应"; "因果";
         "老人"; "孩子"; "病人"; "残疾"; "困难"; "贫困" ]%string) ].

(* ===================================================================== *)
(** ** [DetectionEngine]: preprocessing and the five detectors *)
(* ===================================================================== *)

Section Detectors.
Context {U : Unicode}.

Definition re_d : regex := Cls py_isdigit.
Definition re_s : regex := Cls py_isspace.
Definition re_w : regex := Cls py_isword.

(** [r{n,}] *)
Definition RepMin (n : nat) (r : regex) : regex := Seq (Rep n r) (Star r).

(** A set of characters [[...]] given by its members. *)
Definition OneOf (s : pystr) : regex := Cls (fun c => existsb (N.eqb c) s).

(** [re.sub(r, repl, t)] for a pattern that cannot match the empty string. *)
Fixpoint re_sub (fuel : nat) (r : regex) (repl : pystr) (t : pystr) : pystr :=
  match fuel with
  | O => t
  | S fuel' =>
      match t with
      | [] => []
      | c :: t' =>
          match head (ends r t) with
          | Some rest =>
              if (length rest <? length t)%nat
              then repl ++ re_sub fuel' r repl rest
              else c :: re_sub fuel' r repl t'
          | None => c :: re_sub fuel' r repl t'
          end
      end
  end.

Fixpoint lstrip (t : pystr) : pystr :=
  match t with
  | c :: t' => if py_isspace c then lstrip t' else t
  | [] => []
  end.

(** [t.strip()] *)
Definition strip (t : pystr) : pystr := rev (lstrip (rev (lstrip t))).

(** The class [[^一-鿿\w\s.,!?;:()（）！？；：、。，]]. *)
Definition not_whitelisted (c : N) : bool :=
  negb (((19968 <=? c) && (c <=? 40959))%N
        || py_isword c || py_isspace c
        || existsb (N.eqb c) (u ".,!?;:()（）！？；：、。，")).

(** [_preprocess_text] *)
Definition _preprocess_text (text : pystr) : pystr :=
  let text := py_lower text in
  let text := strip (re_sub (length text) (Plus re_s) (u " ") text) in
  let text := re_sub (length text) (Cls not_whitelisted) [] text in
  text.

(** [_count_keyword_matches] *)
Definition _count_keyword_matches (text : pystr) (keywords : list pystr) : Z :=
  fold_left
    (fun count keyword => if contains text keyword then (count + 1)%Z else count)
    keywords 0%Z.

(** [_detect_language_patterns] *)
Definition excessive_adjectives : list pystr :=
  map u ["神奇"; "绝对"; "完美"; "顶级"; "极品"; "史上最"; "世界级"]%string.

Definition _detect_language_patterns (text : pystr) : Q :=
  let score := 0%Q in
  let score :=
    if re_search (Alt (RepMin 2 (OneOf (u "!！"))) (RepMin 2 (OneOf (u "?？"))))
         text
    then (score + 0.1)%Q else score in
  let score :=
    fold_left
      (fun score adj => if contains text adj then (score + 0.05)%Q else score)
      excessive_adjectives score in
  let score :=
    if re_search
         (Alt (Alt (Seq (Plus re_d) (Lit (u "倍")))
                   (Seq (Lit (u "百分之")) (Plus re_d)))
              (Seq (Plus re_d) (Lit (u "%"))))
         text
    then (score + 0.05)%Q else score in
  Qmin score 0.3.

(** [_detect_contact_info] *)
Definition contact_patterns : list regex :=
  [ Alt (Alt (Alt (Alt (Lit (u "微信")) (Lit (u "qq"))) (Lit (u "电话")))
             (Lit (u "手机")))
        (Lit (u "联系"));
    Rep 11 re_d;
    Seq (Lit (u "qq:")) (Seq (Star re_s) (Plus re_d));
    Seq (Lit (u "微信:")) (Seq (Star re_s) (Plus re_w)) ].

Definition _detect_contact_info (text : pystr) : Q :=
  let score :=
    fold_left
      (fun score pattern =>
         if re_search pattern text then (score + 0.05)%Q else score)
      contact_patterns 0%Q in
  Qmin score 0.2.

(** [_detect_urgency] *)
Definition urgency_words : list pystr :=
  map u ["赶紧"; "立即"; "马上"; "快速"; "紧急"; "限时"; "截止"; "最后"]%string.

Definition urgency_count (text : pystr) : Z :=
  fold_left Z.add
    (map (fun _ => 1%Z) (List.filter (fun word => contains text word) urgency_words))
    0%Z.

Definition _detect_urgency (text : pystr) : Q :=
  let count := urgency_count text in
  Qmin (inject_Z count * 0.05) 0.2.

(** [int(s)] on a run of decimal digits. *)
Definition py_int (s : pystr) : Z :=
  fold_left (fun n c => (10 * n + Z.of_N (py_digit_value c))%Z) s 0%Z.

(** [_detect_suspicious_numbers] *)
Definition money_patterns : list regex :=
  [ Seq (Plus re_d) (Lit (u "万"));
    Seq (Plus re_d) (Lit (u "千"));
    Seq (Plus re_d) (Lit (u "元")) ].

Definition _detect_suspicious_numbers (text : pystr) : Q :=
  let score := 0%Q in
  let score :=
    if re_search
         (Alt (Seq (Plus re_d)
                   (Seq (Lit (u "%")) (Seq (Star Dot) (Lit (u "收益")))))
              (Seq (Lit (u "收益"))
                   (Seq (Star Dot) (Seq (Plus re_d) (Lit (u "%"))))))
         text
    then
      let found := re_findall (S (length text)) (Plus re_d) (Lit (u "%")) text in
      fold_left
        (fun score m => if (20 <? py_int m)%Z then (score + 0.1)%Q else score)
        found score
    else score in
  let score :=
    fold_left
      (fun score pattern =>
         if re_search pattern text then (score + 0.05)%Q else score)
      money_patterns score in
  Qmin score 0.3.

End Detectors.

(* ===================================================================== *)
(** ** [DetectionEngine._perform_detection] *)
(* ===================================================================== *)

Section Aggregation.
Context {U : Unicode}.

(** The local variables that the loop over the keyword table updates. *)
Record locals : Type := {
  risk_score : Q;
  reasons_ : list pystr;
  suggestions_ : list pystr;
  categories_ : list pystr;
  keywords_found : list pystr
}.

Definition locals_init : locals :=
  {| risk_score := 0; reasons_ := []; suggestions_ := [];
     categories_ := []; keywords_found := [] |}.

Definition category_suggestions (category : pystr) : list pystr :=
  if bool_decide (category = u "financial_fraud") then
    [ u "投资需谨慎，高收益往往伴随高风险";
      u "不要轻易相信保证收益的投资项目" ]
  else if bool_decide (category = u "medical_fraud") then
    [ u "有病请找正规医院，不要轻信偏方";
      u "保健品不能替代药物治疗" ]
  else if bool_decide (category = u "general_fraud") then
    [ u "谨防诈骗，不要轻易转账或泄露个人信息" ]
  else [].

(** One iteration of [for category, keywords in self.keywords_db.items()]. *)
Definition keyword_step (text : pystr) (l : locals)
    (item : pystr * list pystr) : locals :=
  let '(category, keywords) := item in
  let matches := _count_keyword_matches text keywords in
  if (0 <? matches)%Z then
    let category_score := Qmin (inject_Z matches * 0.15) 0.6 in
    let matched_keywords := List.filter (fun kw => contains text kw) keywords in
    {| risk_score := (risk_score l + category_score)%Q;
       keywords_found := keywords_found l ++ take 5 matched_keywords;
       categories_ := categories_ l ++ [category];
       reasons_ :=
         reasons_ l
         ++ [u "发现" ++ str_of_N (Z.to_N matches) ++ u "个" ++ category
             ++ u "相关关键词"];
       suggestions_ := suggestions_ l ++ category_suggestions category |}
  else l.

Definition level_of_score (risk_score : Q) : RiskLevel :=
  if Qle_bool 0.7 risk_score then DANGER
  else if Qle_bool 0.4 risk_score then WARNING
  else SAFE.

Definition message_of_score (risk_score : Q) : pystr :=
  if Qle_bool 0.7 risk_score then u "检测到高风险内容，建议立即停止观看"
  else if Qle_bool 0.4 risk_score then u "内容存在可疑信息，请谨慎对待"
  else u "暂未发现明显风险".

(** [0 < x] on floats. *)
Definition Qpos_bool (x : Q) : bool := negb (Qle_bool x 0).

(** [x > 0.1] on floats. *)
Definition Qgt_tenth (x : Q) : bool := negb (Qle_bool x 0.1).

Definition _perform_detection (keywords_db : list (pystr * list pystr))
    (text : pystr) (detection_id : pystr) : DetectionResult :=
  let confidence := 0.8%Q in
  (* 1. keyword matching *)
  let l := fold_left (keyword_step text) keywords_db locals_init in
  let risk_score := risk_score l in
  let reasons := reasons_ l in
  let suggestions := suggestions_ l in
  (* 2. language patterns *)
  let pattern_score := _detect_language_patterns text in
  let '(risk_score, reasons) :=
    if Qgt_tenth pattern_score
    then ((risk_score + pattern_score)%Q,
          reasons ++ [u "检测到可疑的语言模式"])
    else (risk_score, reasons) in
  (* 3. contact information *)
  let contact_score := _detect_contact_info text in
  let '(risk_score, reasons, suggestions) :=
    if Qpos_bool contact_score && Qpos_bool risk_score
    then ((risk_score + contact_score)%Q,
          reasons ++ [u "含有联系方式且存在其他风险因素"],
          suggestions ++ [u "不要轻易添加陌生人联系方式"])
    else (risk_score, reasons, suggestions) in
  (* 4. urgency *)
  let urgency_score := _detect_urgency text in
  let '(risk_score, reasons, suggestions) :=
    if Qgt_tenth urgency_score
    then ((risk_score + urgency_score)%Q,
          reasons ++ [u "内容使用大量紧急性语言，可能是诱导手段"],
          suggestions ++ [u "冷静思考，不要被紧急性语言误导"])
    else (risk_score, reasons, suggestions) in
  (* 5. numbers and ratios *)
  let number_score := _detect_suspicious_numbers text in
  let '(risk_score, reasons) :=
    if Qpos_bool number_score
    then ((risk_score + number_score)%Q,
          reasons ++ [u "检测到可疑的数字承诺"])
    else (risk_score, reasons) in
  (* clamp, then the level *)
  let risk_score := Qmin risk_score 1.0 in
  let level := level_of_score risk_score in
  let message := message_of_score risk_score in
  let suggestions :=
    if bool_decide (level ≠ SAFE)
    then suggestions
         ++ [ u "如有疑问，请咨询家人或专业人士";
              u "遇到要求转账的情况请立即警惕" ]
    else suggestions in
  {| level := level;
     score := risk_score;
     confidence := confidence;
     message := message;
     reasons := reasons;
     suggestions := suggestions;
     categories := categories_ l;
     keywords := keywords_found l;
     detection_id := detection_id |}.

End Aggregation.

(* ===================================================================== *)
(** ** Dictionaries, exceptions, the heap *)
(* ===================================================================== *)

Inductive exn : Type :=
| UnicodeEncodeError
| KeyError
| ValueError
| ZeroDivisionError
| NameError
| AttributeError.

(** A [dict] with string keys, in insertion order. *)
Section Dict.
Context {V : Type}.

Definition dict_get (d : list (pystr * V)) (k : pystr) : option V :=
  snd <$> List.find (fun e => bool_decide (e.1 = k)) d.

(** [k in d] *)
Definition dict_mem (d : list (pystr * V)) (k : pystr) : bool :=
  bool_decide (k ∈ d.*1).

(** [d[k] = v]: a present key keeps its place, a new one goes last. *)
Fixpoint dict_set (d : list (pystr * V)) (k : pystr) (v : V)
  : list (pystr * V) :=
  match d with
  | [] => [(k, v)]
  | (k', v') :: d' =>
      if bool_decide (k' = k) then (k, v) :: d' else (k', v') :: dict_set d' k v
  end.

(** [del d[k]], for a key of [d]. *)
Definition dict_del (d : list (pystr * V)) (k : pystr) : list (pystr * V) :=
  List.filter (fun e => negb (bool_decide (e.1 = k))) d.

End Dict.

(** References to [DetectionResult] objects, and the store they point into. *)
Abbreviation ref := nat (only parsing).

Definition alloc (h : list DetectionResult) (r : DetectionResult)
  : ref * list DetectionResult :=
  (length h, h ++ [r]).

(** [r.detection_id = id] *)
Definition set_detection_id (id : pystr) (r : DetectionResult)
  : DetectionResult :=
  {| level := level r; score := score r; confidence := confidence r;
     message := message r; reasons := reasons r;
     suggestions := suggestions r; categories := categories r;
     keywords := keywords r; detection_id := id |}.

(* ===================================================================== *)
(** ** [DetectionEngine]: cache, statistics, [detect_text] *)
(* ===================================================================== *)

Record DetectionEngine : Type := {
  cache : list (pystr * ref);
  statistics : DetectionStats;
  keywords_db : list (pystr * list pystr);
  is_initialized : bool
}.

(** The engine together with the objects that it and its callers hold. *)
Record world : Type := {
  heap : list DetectionResult;
  self : DetectionEngine
}.

(** The values that the statements of [__init__] give to the attributes
    [cache], [statistics], [keywords_db] and [is_initialized]. *)
Definition DetectionEngine_attributes : DetectionEngine :=
  {| cache := [];
     statistics := DetectionStats_init;
     keywords_db := _load_keywords;
     is_initialized := false |}.

(** [self.logger = ...] on an instance of a subclass of [LoggerMixin]: the
    mixin declares [logger] as a property with a getter only
    ([logging_config.py], lines 133 to 136), so the assignment raises. *)
Definition LoggerMixin_set_logger : exn + unit := inl AttributeError.

(** [DetectionEngine.__init__].  Its first statement assigns [self.logger];
    the four attribute assignments come after it. *)
Definition DetectionEngine_init : exn + DetectionEngine :=
  match LoggerMixin_set_logger with
  | inl e => inl e
  | inr _ => inr DetectionEngine_attributes
  end.

(** The state of an engine whose attributes hold the values that [__init__]
    assigns, with no result object allocated yet.  The methods are studied
    from this state on, whichever way an engine gets into it. *)
Definition world_init : world :=
  {| heap := []; self := DetectionEngine_attributes |}.

(** [_generate_cache_key] *)
Definition _generate_cache_key (text : pystr) : exn + pystr :=
  match utf8_encode text with
  | Some bs => inr (md5_hexdigest bs)
  | None => inl UnicodeEncodeError
  end.

(** [_cleanup_cache], on the dictionary [self.cache]. *)
Definition _cleanup_cache (cache : list (pystr * ref)) : list (pystr * ref) :=
  if (1000 <? length cache)%nat then
    let items_to_remove := (length cache / 2)%nat in
    let keys_to_remove := take items_to_remove (cache.*1) in
    fold_left dict_del keys_to_remove cache
  else cache.

(** The two statements by which [detect_text] stores a result:
    [self.cache[cache_key] = result] and [self._cleanup_cache()]. *)
Definition cache_put (cache : list (pystr * ref)) (cache_key : pystr)
    (result : ref) : list (pystr * ref) :=
  _cleanup_cache (dict_set cache cache_key result).

(** [_update_statistics], on [self.statistics]. *)
Definition _update_statistics (st : DetectionStats) (result : DetectionResult)
    (processing_time : Q) : DetectionStats :=
  let total := (total_detections st + 1)%N in
  let total_time :=
    (avg_processing_time st * inject_Z (Z.of_N total - 1))%Q in
  {| total_detections := total;
     safe_count :=
       if bool_decide (level result = SAFE)
       then (safe_count st + 1)%N else safe_count st;
     warning_count :=
       if bool_decide (level result = WARNING)
       then (warning_count st + 1)%N else warning_count st;
     danger_count :=
       if bool_decide (level result = DANGER)
       then (danger_count st + 1)%N else danger_count st;
     avg_processing_time :=
       ((total_time + processing_time) / inject_Z (Z.of_N total))%Q |}.

(** The result that the [except] branch of [detect_text] builds. *)
Definition fallback_result (detection_id : pystr) : DetectionResult :=
  {| level := SAFE;
     score := 0.0;
     confidence := 0.1;
     message := u "检测服务异常，请手动验证内容安全性";
     reasons := [u "系统检测异常"];
     suggestions := [u "建议人工确认内容真实性"];
     categories := [];
     keywords := [];
     detection_id := detection_id |}.

Section Engine.
Context {U : Unicode}.

(** The body of the [try] of [detect_text].  [detection_id] is the value
    of [str(uuid.uuid4())] and [processing_time] the difference of the two
    clock readings: they are inputs from the environment. *)
Definition detect_text_try (w : world) (text : pystr) (detection_id : pystr)
    (processing_time : Q) : exn + (ref * world) :=
  match _generate_cache_key text with
  | inl e => inl e
  | inr cache_key =>
      if dict_mem (cache (self w)) cache_key then
        match dict_get (cache (self w)) cache_key with
        | Some cached_result =>
            inr (cached_result,
                 {| heap :=
                      alter (set_detection_id detection_id) cached_result
                        (heap w);
                    self := self w |})
        | None => inl KeyError
        end
      else
        let cleaned_text := _preprocess_text text in
        let result :=
          _perform_detection (keywords_db (self w)) cleaned_text detection_id in
        let '(a, heap') := alloc (heap w) result in
        let cache'' := cache_put (cache (self w)) cache_key a in
        let statistics' :=
          _update_statistics (statistics (self w)) result processing_time in
        inr (a,
             {| heap := heap';
                self :=
                  {| cache := cache'';
                     statistics := statistics';
                     keywords_db := keywords_db (self w);
                     is_initialized := is_initialized (self w) |} |})
  end.

(** The function that is written under the decorator (lines 128 to 190),
    [detect_text.__wrapped__]: the [try] with its [except Exception] handler,
    which builds the fallback result. *)
Definition detect_text_wrapped (w : world) (text : pystr)
    (detection_id : pystr) (processing_time : Q) : ref * world :=
  match detect_text_try w text detection_id processing_time with
  | inr res => res
  | inl _ =>
      let '(a, heap') := alloc (heap w) (fallback_result detection_id) in
      (a, {| heap := heap'; self := self w |})
  end.

(** [log_detection_result()(func)] for a coroutine function [func], the
    [async_wrapper] of [logging_config.py], lines 192 to 211.  The argument
    is the outcome of [await func(...)] with the state it leaves.  When
    [func] has returned, the wrapper builds its log record, whose entry
    ["timestamp": time.time()] is evaluated in a module that does not
    import [time]: that raises [NameError] inside the [try], and the handler
    logs and re-raises.  An exception of [func] is re-raised likewise.  The
    state is the one [func] left. *)
Definition log_detection_result {A : Type} (call : (exn + A) * world)
  : (exn + A) * world :=
  match call with
  | (inr result, w) => (inl NameError, w)
  | (inl e, w) => (inl e, w)
  end.

(** [detect_text], the decorated method (line 127): what a caller of the
    engine calls. *)
Definition detect_text (w : world) (text : pystr) (detection_id : pystr)
    (processing_time : Q) : (exn + ref) * world :=
  log_detection_result
    (let '(a, w') := detect_text_wrapped w text detection_id processing_time in
     (inr a, w')).

(** [initialize]: reloads the table, resets the statistics and runs one
    test detection; any exception is logged and re-raised, and the flag
    [is_initialized] is set only after the test detection has returned. *)
Definition initialize (w : world) (detection_id : pystr)
    (processing_time : Q) : (exn + unit) * world :=
  let w1 :=
    {| heap := heap w;
       self :=
         {| cache := cache (self w);
            statistics := DetectionStats_init;
            keywords_db := _load_keywords;
            is_initialized := is_initialized (self w) |} |} in
  match detect_text w1 (u "测试文本") detection_id processing_time with
  | (inr test_result, w2) =>
      (inr (),
       {| heap := heap w2;
          self :=
            {| cache := cache (self w2);
               statistics := statistics (self w2);
               keywords_db := keywords_db (self w2);
               is_initialized := true |} |})
  | (inl e, w2) => (inl e, w2)
  end.

(** [cleanup]: [self.cache.clear()] *)
Definition cleanup (w : world) : world :=
  {| heap := heap w;
     self :=
       {| cache := [];
          statistics := statistics (self w);
          keywords_db := keywords_db (self w);
          is_initialized := is_initialized (self w) |} |}.

(** States that the engine reaches from [world_init] through calls of its
    state-changing methods, whether these return or raise. *)
Inductive reachable : world -> Prop :=
| reachable_init : reachable world_init
| reachable_detect w text detection_id processing_time :
    reachable w ->
    reachable (detect_text w text detection_id processing_time).2
| reachable_initialize w detection_id processing_time :
    reachable w ->
    reachable (initialize w detection_id processing_time).2
| reachable_cleanup w :
    reachable w ->
    reachable (cleanup w).

End Engine.

(* ===================================================================== *)
(** ** [AIModelManager._weighted_voting] *)
(* ===================================================================== *)

Module AIModelManager.

(** The entries of a prediction dictionary that the vote reads: ['model'] is
    read with [get] and may be absent, the others are indexed. *)
Record Prediction : Type := {
  model : option pystr;
  prediction : pystr;
  confidence : Q;
  explanation : pystr
}.

(** The dictionary that the vote returns. *)
Record Ensemble : Type := {
  final_prediction : pystr;
  final_confidence : Q;
  final_explanation : pystr;
  vote_scores : list (pystr * Q);
  model_predictions : list Prediction
}.

(** The local variables of the loop over the predictions. *)
Record tally : Type := {
  votes : list (pystr * Q);
  total_confidence : Q;
  explanations : list pystr
}.

Definition tally_init : tally :=
  {| votes := [(u "safe", 0%Q); (u "warning", 0%Q); (u "danger", 0%Q)];
     total_confidence := 0;
     explanations := [] |}.

(** [max(d, key=d.get)]: the first key, in the order of the dictionary, whose
    value no later value exceeds. *)
Fixpoint max_from (best : pystr * Q) (d : list (pystr * Q)) : pystr * Q :=
  match d with
  | [] => best
  | e :: d' =>
      if Qle_bool e.2 best.2 then max_from best d' else max_from e d'
  end.

Definition py_max_key (d : list (pystr * Q)) : option pystr :=
  match d with
  | [] => None
  | e :: d' => Some (max_from e d').1
  end.

(** [sep.join(l)] *)
Fixpoint join (sep : pystr) (l : list pystr) : pystr :=
  match l with
  | [] => []
  | [s] => s
  | s :: l' => s ++ sep ++ join sep l'
  end.

Section Voting.
Context {U : Unicode}.

(** One iteration of [for pred in predictions]. *)
Definition vote_step (weights : list (pystr * Q)) (st : exn + tally)
    (pred : Prediction) : exn + tally :=
  match st with
  | inl e => inl e
  | inr t =>
      let model_name := default (u "unknown") (model pred) in
      let weight := default 0.1%Q (dict_get weights (py_lower model_name)) in
      match dict_get (votes t) (prediction pred) with
      | None => inl KeyError
      | Some v =>
          inr {| votes :=
                   dict_set (votes t) (prediction pred)
                     (v + weight * confidence pred)%Q;
                 total_confidence :=
                   (total_confidence t + confidence pred * weight)%Q;
                 explanations :=
                   explanations t
                   ++ [model_name ++ u ": " ++ explanation pred] |}
      end
  end.

Definition _weighted_voting (predictions : list Prediction)
    (weights : list (pystr * Q)) : exn + Ensemble :=
  match fold_left (vote_step weights) predictions (inr tally_init) with
  | inl e => inl e
  | inr t =>
      match py_max_key (votes t) with
      | None => inl ValueError
      | Some final =>
          if bool_decide (predictions = []) then inl ZeroDivisionError
          else
            inr {| final_prediction := final;
                   final_confidence :=
                     (total_confidence t
                      / inject_Z (Z.of_nat (length predictions)))%Q;
                   final_explanation := join (u " | ") (explanations t);
                   vote_scores := votes t;
                   model_predictions := predictions |}
      end
  end.

End Voting.

End AIModelManager.

(* ===================================================================== *)
(** ** Notions used in the statements *)
(* ===================================================================== *)

(** The comparison with zero does not distinguish equal rationals. *)
#[export] Instance Qpos_bool_proper : Proper (Qeq ==> eq) Qpos_bool.
Proof. intros x y E. unfold Qpos_bool. now rewrite E. Qed.

(** The thresholds, read off a result. *)
Definition thresholds_ok (r : DetectionResult) : Prop :=
  ((0.7 <= score r)%Q -> level r = DANGER)
  /\ ((0.4 <= score r)%Q /\ (score r < 0.7)%Q -> level r = WARNING)
  /\ ((score r < 0.4)%Q -> level r = SAFE).

(** The score is in the unit interval and determines the level. *)
Definition result_ok (r : DetectionResult) : Prop :=
  (0 <= score r)%Q /\ (score r <= 1)%Q
  /\ level r = level_of_score (score r).

(** Well-formed states: the keys of the cache are distinct, as in any
    dictionary, and every cached reference points into the heap. *)
Definition wf_world (w : world) : Prop :=
  NoDup (cache (self w)).*1
  /\ Forall (fun e => (e.2 < length (heap w))%nat) (cache (self w)).

(** A detection of [text] in state [w] is answered from the cache. *)
Definition cache_hit (w : world) (text : pystr) : bool :=
  match _generate_cache_key text with
  | inr cache_key => dict_mem (cache (self w)) cache_key
  | inl _ => false
  end.

(** The text has a UTF-8 encoding (it holds no lone surrogate). *)
Definition encodable (text : pystr) : Prop := is_Some (utf8_encode text).

(** The three ways in which [detect_text_wrapped] ends: the [except]
    branch, a cache hit, a cache miss. *)
Inductive outcome {U : Unicode} (w : world) (text id : pystr) (pt : Q)
  : ref -> world -> Prop :=
| outcome_failed e :
    _generate_cache_key text = inl e ->
    outcome w text id pt (length (heap w))
      {| heap := heap w ++ [fallback_result id]; self := self w |}
| outcome_hit key a :
    _generate_cache_key text = inr key ->
    dict_get (cache (self w)) key = Some a ->
    outcome w text id pt a
      {| heap := alter (set_detection_id id) a (heap w); self := self w |}
| outcome_miss key :
    _generate_cache_key text = inr key ->
    dict_get (cache (self w)) key = None ->
    let result :=
      _perform_detection (keywords_db (self w)) (_preprocess_text text) id in
    outcome w text id pt (length (heap w))
      {| heap := heap w ++ [result];
         self :=
           {| cache := cache_put (cache (self w)) key (length (heap w));
              statistics := _update_statistics (statistics (self w)) result pt;
              keywords_db := keywords_db (self w);
              is_initialized := is_initialized (self w) |} |}.

(** A sequence of [put]s into the cache. *)
Definition cache_puts (entries : list (pystr * ref))
    (cache : list (pystr * ref)) : list (pystr * ref) :=
  fold_left (fun c e => cache_put c e.1 e.2) entries cache.

Section Closed_forms.
Context {U : Unicode}.

Definition gate (b : bool) (x : Q) : Q := if b then x else 0%Q.

(** The contribution of one category of the keyword table. *)
Definition category_contribution (text : pystr)
    (item : pystr * list pystr) : Q :=
  let matches := _count_keyword_matches text item.2 in
  if (0 <? matches)%Z then Qmin (inject_Z matches * 0.15) 0.6 else 0%Q.

Definition keyword_total (text : pystr)
    (keywords_db : list (pystr * list pystr)) : Q :=
  fold_right (fun item acc => category_contribution text item + acc)%Q 0%Q
    keywords_db.

(** The sum that the code clamps: the pattern and urgency contributions
    count only above 0.1, the contact contribution only next to an already
    positive total. *)
Definition gated_sum (keywords_db : list (pystr * list pystr))
    (text : pystr) : Q :=
  let kw := keyword_total text keywords_db in
  let pat :=
    gate (Qgt_tenth (_detect_language_patterns text))
      (_detect_language_patterns text) in
  let con :=
    gate (Qpos_bool (_detect_contact_info text) && Qpos_bool (kw + pat))
      (_detect_contact_info text) in
  let urg :=
    gate (Qgt_tenth (_detect_urgency text)) (_detect_urgency text) in
  (kw + pat + con + urg + _detect_suspicious_numbers text)%Q.

(** The sum as the specification words it: all five contributions, the
    contact one only when the running total is already positive. *)
Definition spec_sum (keywords_db : list (pystr * list pystr))
    (text : pystr) : Q :=
  let kw := keyword_total text keywords_db in
  let pat := _detect_language_patterns text in
  let con := gate (Qpos_bool (kw + pat)) (_detect_contact_info text) in
  (kw + pat + con + _detect_urgency text + _detect_suspicious_numbers text)%Q.

End Closed_forms.

(** The vote mass of a level as the specification words it: the sum of
    [weight * confidence] over the opinions that predict this level. *)
Section Vote_mass.
Context {U : Unicode}.
Import AIModelManager.

Definition weight_of (weights : list (pystr * Q)) (pred : Prediction) : Q :=
  default 0.1%Q
    (dict_get weights (py_lower (default (u "unknown") (model pred)))).

Definition vote_mass (weights : list (pystr * Q)) (lvl : pystr)
    (predictions : list Prediction) : Q :=
  fold_right
    (fun pred acc =>
       if bool_decide (prediction pred = lvl)
       then (weight_of weights pred * confidence pred + acc)%Q else acc)
    0%Q predictions.

Definition weighted_confidence (weights : list (pystr * Q))
    (predictions : list Prediction) : Q :=
  fold_right
    (fun pred acc => (confidence pred * weight_of weights pred + acc)%Q)
    0%Q predictions.

Definition level_names : list pystr := [u "safe"; u "warning"; u "danger"].

End Vote_mass.

(** Concrete inputs. *)
Definition text_scam : pystr := u "月入三万的理财秘诀，保证收益无风险！".
Definition text_recipe : pystr := u "今天教大家做红烧肉的家常做法".
Definition text_deadline : pystr := u "截止".
Definition text_surrogate : pystr := [55296%N].
Definition text_test : pystr := u "测试文本".

(** Two different texts of 72 letters and digits with the same MD5 digest. *)
Definition text_collision_1 : pystr :=
  u "TEXTCOLLBYfGiJUETHQ4hAcKSMd5zYpgqf1YRDhkmxHkhPWptrkoyz28wnI9V0aHeAuaKnak".
Definition text_collision_2 : pystr :=
  u "TEXTCOLLBYfGiJUETHQ4hEcKSMd5zYpgqf1YRDhkmxHkhPWptrkoyz28wnI9V0aHeAuaKnak".

Definition opinions_ABC : list AIModelManager.Prediction :=
  [ AIModelManager.Build_Prediction (Some (u "A")) (u "danger") 0.9 (u "a");
    AIModelManager.Build_Prediction (Some (u "B")) (u "safe") 0.8 (u "b");
    AIModelManager.Build_Prediction (Some (u "C")) (u "warning") 0.7 (u "c") ].

Definition weights_ABC : list (pystr * Q) :=
  [(u "a", 0.4%Q); (u "b", 0.3%Q); (u "c", 0.3%Q)].

Definition numbered_entries (n : nat) : list (pystr * ref) :=
  map (fun i => (str_of_N (N.of_nat i), i)) (seq 0 n).

(* ===================================================================== *)
(** ** [DetectionEngine.detect_batch] and [health_check] *)
(* ===================================================================== *)

Section Batch.
Context {U : Unicode}.

(** The call of [asyncio.gather] in [detect_batch].  Every task awaits
    [detect_text] under a semaphore of three permits; [detect_text] never
    suspends (it awaits only [_perform_detection], which awaits nothing), so
    a task that starts runs to its end, by return or by exception, and
    releases its permit before the next one starts.  The event loop starts
    the tasks in the order of [texts], and all of them have run when the
    outcome of [gather] reaches [detect_batch]: the list of the results in
    that order, or the exception of the first task that raised.  Each text
    comes with the detection id and the processing time that its call draws
    from the environment. *)
Fixpoint gather_detect (w : world) (calls : list (pystr * pystr * Q))
  : (exn + list ref) * world :=
  match calls with
  | [] => (inr [], w)
  | (text, detection_id, processing_time) :: calls' =>
      let '(r, w1) := detect_text w text detection_id processing_time in
      let '(rs, w2) := gather_detect w1 calls' in
      (match r, rs with
       | inl e, _ => inl e
       | inr a, inl e => inl e
       | inr a, inr results => inr (a :: results)
       end, w2)
  end.

(** The state after the detections of a batch, one after the other. *)
Definition detect_all (w : world) (calls : list (pystr * pystr * Q)) : world :=
  fold_left (fun w c => (detect_text w c.1.1 c.1.2 c.2).2) calls w.

(** [detect_batch]: the results of [gather], or the empty list of the
    [except] branch. *)
Definition detect_batch (w : world) (calls : list (pystr * pystr * Q))
  : list ref * world :=
  match gather_detect w calls with
  | (inr results, w') => (results, w')
  | (inl _, w') => ([], w')
  end.



End Batch.

(* ===================================================================== *)
(** ** [AIModelManager]: the predictors and [ensemble_predict] *)
(* ===================================================================== *)

Module Ensemble.
Import AIModelManager.

Inductive ModelType : Type := CHATGLM | LLAMA | BERT | VICUNA | RULE_BASED.

(** [ModelConfig], without the device, which is read off the hardware. *)
Record ModelConfig : Type := {
  name : pystr;
  type : ModelType;
  path : pystr;
  max_length : Z;
  batch_size : Z;
  use_lora : bool;
  lora_path : option pystr
}.

(** [_init_model_configs] *)
Definition _init_model_configs : list (pystr * ModelConfig) :=
  [ (u "chatglm",
     {| name := u "ChatGLM-6B"; type := CHATGLM;
        path := u "THUDM/chatglm-6b"; max_length := 2048; batch_size := 8;
        use_lora := true; lora_path := Some (u "./models/chatglm_lora") |});
    (u "bert",
     {| name := u "Chinese-BERT-wwm"; type := BERT;
        path := u "hfl/chinese-bert-wwm-ext"; max_length := 512;
        batch_size := 8; use_lora := false; lora_path := None |});
    (u "llama",
     {| name := u "LLaMA-7B-Chinese"; type := LLAMA;
        path := u "ziqingyang/chinese-llama-7b"; max_length := 1024;
        batch_size := 8; use_lora := true;
        lora_path := Some (u "./models/llama_lora") |}) ].

(** [_get_fallback_result] *)
Definition _get_fallback_result : Prediction :=
  {| model := None;
     prediction := u "warning";
     confidence := 0.5;
     explanation := u "AI模型暂时不可用，使用默认策略" |}.

(** [_parse_chatglm_response] *)
Definition _parse_chatglm_response (response : pystr) : Prediction :=
  if contains response (u "危险") || contains response (u "高风险") then
    {| model := None; prediction := u "danger"; confidence := 0.85;
       explanation := response |}
  else if contains response (u "警告") || contains response (u "可疑") then
    {| model := None; prediction := u "warning"; confidence := 0.70;
       explanation := response |}
  else
    {| model := None; prediction := u "safe"; confidence := 0.90;
       explanation := response |}.

(** [_predict_mock] *)
Definition mock_danger_keywords : list pystr :=
  map u ["保证收益"; "月入万元"; "包治百病"]%string.

Definition mock_warning_keywords : list pystr :=
  map u ["投资"; "理财"; "保健品"]%string.

Definition _predict_mock (text : pystr) : Prediction :=
  let '(risk_level, confidence) :=
    if existsb (contains text) mock_danger_keywords
    then (u "danger", 0.85%Q)
    else if existsb (contains text) mock_warning_keywords
    then (u "warning", 0.75%Q)
    else (u "safe", 0.9%Q) in
  {| model := None;
     prediction := risk_level;
     confidence := confidence;
     explanation := u "基于关键词检测的" ++ risk_level ++ u "级别风险" |}.

Definition risk_levels : list pystr := [u "safe"; u "warning"; u "danger"].

(** [_generate_bert_explanation], for a class index that is not negative. *)
Definition bert_explanations : list pystr :=
  [ u "BERT模型判断内容安全，未发现明显风险因素";
    u "BERT模型检测到可疑内容，建议谨慎对待";
    u "BERT模型发现高风险内容，强烈建议避免" ].

(** What the model backends hand to the predictors: the response of
    [model.chat], and the class index and its probability that the
    classifiers read off the logits.  Either computation may raise. *)
Record Backends : Type := {
  chat : pystr -> pystr -> exn + pystr;
  classify : pystr -> pystr -> exn + (nat * Q)
}.

(** [_predict_chatglm]: the body of the [try], with its handler. *)
Definition _predict_chatglm (response : exn + pystr) : Prediction :=
  match response with
  | inr response => _parse_chatglm_response response
  | inl _ => _get_fallback_result
  end.

(** [_predict_bert]: an index outside the three levels raises inside the
    [try]. *)
Definition _predict_bert (output : exn + (nat * Q)) : Prediction :=
  match output with
  | inr (predicted_class, confidence) =>
      match risk_levels !! predicted_class,
            bert_explanations !! predicted_class with
      | Some lvl, Some expl =>
          {| model := None; prediction := lvl; confidence := confidence;
             explanation := expl |}
      | _, _ => _get_fallback_result
      end
  | inl _ => _get_fallback_result
  end.

(** [_predict_llama] *)
Definition _predict_llama (output : exn + (nat * Q)) : Prediction :=
  match output with
  | inr (predicted_class, confidence) =>
      match risk_levels !! predicted_class with
      | Some lvl =>
          {| model := None; prediction := lvl; confidence := confidence;
             explanation := u "LLaMA模型检测到" ++ lvl ++ u "级别风险" |}
      | None => _get_fallback_result
      end
  | inl _ => _get_fallback_result
  end.

(** [result['model'] = config.name] *)
Definition set_model (model_name : pystr) (result : Prediction) : Prediction :=
  {| model := Some model_name; prediction := prediction result;
     confidence := confidence result; explanation := explanation result |}.

(** [predict].  [models] and [tokenizers] are the keys of the two
    dictionaries of loaded models. *)
Definition predict (configs : list (pystr * ModelConfig))
    (models tokenizers : list pystr) (B : Backends)
    (model_id : pystr) (text : pystr) : exn + Prediction :=
  if negb (bool_decide (model_id ∈ models)) then inl ValueError
  else if negb (bool_decide (model_id ∈ tokenizers)) then inl KeyError
  else
    match dict_get configs model_id with
    | None => inl KeyError
    | Some config =>
        let result :=
          match type config with
          | CHATGLM => _predict_chatglm (chat B model_id text)
          | BERT => _predict_bert (classify B model_id text)
          | LLAMA => _predict_llama (classify B model_id text)
          | _ => _predict_mock text
          end in
        inr (set_model (name config) result)
    end.

(** The weights of [ensemble_predict]. *)
Definition ensemble_weights : list (pystr * Q) :=
  [(u "chatglm", 0.4%Q); (u "bert", 0.3%Q); (u "llama", 0.3%Q)].

Section Ensemble_predict.
Context {U : Unicode}.

(** The predictions that [ensemble_predict] gathers: one task for each
    loaded model that has a weight, the tasks that raised left out. *)
Definition gathered (configs : list (pystr * ModelConfig))
    (models tokenizers : list pystr) (B : Backends) (text : pystr)
  : list Prediction :=
  let tasks :=
    List.filter (fun model_id => dict_mem ensemble_weights model_id) models in
  let results :=
    map (fun model_id => predict configs models tokenizers B model_id text)
      tasks in
  omap (fun result =>
          match result with inr p => Some p | inl _ => None end)
    results.

(** [ensemble_predict]: the fallback dictionary, or that of the vote. *)
Definition ensemble_predict (configs : list (pystr * ModelConfig))
    (models tokenizers : list pystr) (B : Backends) (text : pystr)
  : exn + (Prediction + Ensemble) :=
  let predictions := gathered configs models tokenizers B text in
  if bool_decide (predictions = []) then inr (inl _get_fallback_result)
  else
    match _weighted_voting predictions ensemble_weights with
    | inl e => inl e
    | inr final_prediction => inr (inr final_prediction)
    end.

End Ensemble_predict.

End Ensemble.

(* ===================================================================== *)
(** ** Further notions used in the statements *)
(* ===================================================================== *)

(** The category has at least one keyword in the text. *)
Definition category_fires (text : pystr) (item : pystr * list pystr) : bool :=
  (0 <? _count_keyword_matches text item.2)%Z.

(** The keywords of a category that occur in the text. *)
Definition matched_keywords (text : pystr) (item : pystr * list pystr)
  : list pystr :=
  List.filter (fun kw => contains text kw) item.2.

(** The counters of the statistics add up. *)
Definition stats_consistent (st : DetectionStats) : Prop :=
  total_detections st = (safe_count st + warning_count st + danger_count st)%N.

(** A sequence of calls of [_update_statistics]. *)
Definition record_all (st : DetectionStats)
    (rs : list (DetectionResult * Q)) : DetectionStats :=
  fold_left (fun st rp => _update_statistics st rp.1 rp.2) rs st.

Definition sum_Q (l : list Q) : Q := fold_right Qplus 0%Q l.

(** Every text that the pattern matches holds the character [c]. *)
Fixpoint requires (c : N) (r : regex) : Prop :=
  match r with
  | Eps => False
  | Cls p => forall x, p x = true -> x = c
  | Seq r1 r2 => requires c r1 \/ requires c r2
  | Alt r1 r2 => requires c r1 /\ requires c r2
  | Star _ => False
  end.

(** Code points that UTF-8 does not encode: the surrogates, and what lies
    beyond U+10FFFF. *)
Definition unencodable (c : N) : bool :=
  ((55296 <=? c) && (c <=? 57343) || (1114112 <=? c))%N.

Definition is_hex_char (c : N) : bool :=
  ((48 <=? c) && (c <=? 57) || (97 <=? c) && (c <=? 102))%N.

Definition models_all : list pystr := [u "chatglm"; u "bert"; u "llama"].

(** Backends for an example: the chat answers as [MockModel.chat] does, the
    classifiers report class 2 with probability 0.8. *)
Definition backends_mock : Ensemble.Backends :=
  {| Ensemble.chat := fun _ _ => inr (u "模拟响应：检测到可疑内容");
     Ensemble.classify := fun _ _ => inr (2%nat, 0.8%Q) |}.

(* ===================================================================== *)
(** * Properties *)
(* ===================================================================== *)

(** Case analysis on the four guarded additions of [_perform_detection]. *)
Ltac destruct_gates :=
  repeat match goal with
         | |- context [if ?b then _ else _] =>
             lazymatch b with
             | Qgt_tenth _ => destruct b
             | andb _ _ => destruct b
             | Qpos_bool _ => destruct b
             end
         end.

(** ** The models of the library functions on known values *)

(** The test suite of RFC 1321, in part. *)
Example md5_test_vectors :
  md5_hexdigest [] = u "d41d8cd98f00b204e9800998ecf8427e"
  /\ md5_hexdigest (bytes_of_string "abc")
     = u "900150983cd24fb0d6963f7d28e17f72"
  /\ md5_hexdigest (bytes_of_string "message digest")
     = u "f96b697d7cb7938d525a2f31aaf161d0".
Proof. repeat split; vm_compute; reflexivity. Qed.

Example utf8_encode_examples :
  utf8_encode (u "a收益") = Some [97; 230; 148; 182; 231; 155; 138]%N
  /\ utf8_encode text_surrogate = None.
Proof. split; reflexivity. Qed.

Example re_examples :
  re_search (Seq (Plus re_d) (Lit (u "%"))) (u "up to 30% off") = true
  /\ re_search (Rep 11 re_d) (u "tel 1381234567") = false
  /\ re_search (Rep 11 re_d) (u "tel 13812345678") = true
  /\ re_findall 20 (Plus re_d) (Lit (u "%")) (u "5 66%%7% 8")
     = [u "66"; u "7"].
Proof. repeat split; vm_compute; reflexivity. Qed.

Example preprocess_example :
  _preprocess_text (u "  Hello   World!!  <加微信> ") = u "hello world!! 加微信".
Proof. vm_compute. reflexivity. Qed.

(** ** Comparisons on rationals *)

Lemma Qpos_bool_true x : Qpos_bool x = true <-> (0 < x)%Q.
Proof.
  unfold Qpos_bool. rewrite negb_true_iff, <- not_true_iff_false, Qle_bool_iff.
  split; [apply Qnot_le_lt | apply Qlt_not_le].
Qed.

Lemma Qgt_tenth_true x : Qgt_tenth x = true <-> (0.1 < x)%Q.
Proof.
  unfold Qgt_tenth. rewrite negb_true_iff, <- not_true_iff_false, Qle_bool_iff.
  split; [apply Qnot_le_lt | apply Qlt_not_le].
Qed.

Lemma fold_left_nonneg {A} (f : Q -> A -> Q) (l : list A) (q : Q) :
  (forall q a, (0 <= q)%Q -> (0 <= f q a)%Q) ->
  (0 <= q)%Q -> (0 <= fold_left f l q)%Q.
Proof.
  intros Hf. revert q. induction l as [|a l IH]; intros q Hq; simpl; auto.
Qed.

Lemma bump_nonneg (b : bool) (q c : Q) :
  (0 <= c)%Q -> (0 <= q)%Q -> (0 <= if b then q + c else q)%Q.
Proof. destruct b; lra. Qed.

(** ** The score that [_perform_detection] computes *)

Section Scoring.
Context {U : Unicode}.

Lemma category_contribution_nonneg text item :
  (0 <= category_contribution text item)%Q.
Proof.
  unfold category_contribution.
  destruct (0 <? _)%Z eqn:E; [|lra].
  apply Z.ltb_lt in E.
  apply Q.min_glb; [|lra].
  assert (0 <= inject_Z (_count_keyword_matches text item.2))%Q.
  { change 0%Q with (inject_Z 0). rewrite <- Zle_Qle. lia. }
  nra.
Qed.

Lemma keyword_total_nonneg text kdb : (0 <= keyword_total text kdb)%Q.
Proof.
  induction kdb as [|item kdb IH]; simpl; [lra|].
  pose proof (category_contribution_nonneg text item). lra.
Qed.

Lemma keyword_step_score text l item :
  (risk_score (keyword_step text l item)
   == risk_score l + category_contribution text item)%Q.
Proof.
  unfold keyword_step, category_contribution. destruct item as [c kws]; simpl.
  destruct (0 <? _)%Z; simpl; lra.
Qed.

(** The loop over the keyword table adds up the category contributions. *)
Lemma keyword_loop_score text kdb l :
  (risk_score (fold_left (keyword_step text) kdb l)
   == risk_score l + keyword_total text kdb)%Q.
Proof.
  revert l. induction kdb as [|item kdb IH]; intros l; simpl; [lra|].
  rewrite IH, keyword_step_score. lra.
Qed.

Lemma _detect_suspicious_numbers_nonneg text :
  (0 <= _detect_suspicious_numbers text)%Q.
Proof.
  unfold _detect_suspicious_numbers.
  apply Q.min_glb; [|lra].
  apply fold_left_nonneg.
  - intros q a Hq. apply bump_nonneg; lra.
  - destruct (re_search _ text); [|lra].
    apply fold_left_nonneg; [|lra].
    intros q a Hq. apply bump_nonneg; lra.
Qed.

Lemma gate_pos_id x : (0 <= x)%Q -> (gate (Qpos_bool x) x == x)%Q.
Proof.
  intros Hx. unfold gate. destruct (Qpos_bool x) eqn:E; [reflexivity|].
  apply not_true_iff_false in E. rewrite Qpos_bool_true in E.
  apply Qnot_lt_le in E. lra.
Qed.

(** The score, step by step as the code computes it, is the clamped gated
    sum. *)
Lemma perform_detection_score kdb text id :
  (score (_perform_detection kdb text id) == Qmin (gated_sum kdb text) 1)%Q.
Proof.
  unfold _perform_detection, gated_sum.
  pose proof (keyword_loop_score text kdb locals_init) as Hk.
  simpl risk_score at 2 in Hk.
  pose proof (gate_pos_id _ (_detect_suspicious_numbers_nonneg text)) as Hn.
  set (l := fold_left (keyword_step text) kdb locals_init) in *.
  set (kw := keyword_total text kdb) in *.
  assert (Hk' : (risk_score l == kw)%Q) by (rewrite Hk; lra).
  clearbody l kw. clear Hk.
  unfold gate in *.
  destruct (Qgt_tenth (_detect_language_patterns text)) eqn:Ep.
  - assert (Hrs : (risk_score l + _detect_language_patterns text
                   == kw + _detect_language_patterns text)%Q)
      by (rewrite Hk'; lra).
    rewrite Hrs.
    destruct (Qpos_bool (_detect_contact_info text) && Qpos_bool _) eqn:Ec;
      destruct (Qgt_tenth (_detect_urgency text)) eqn:Eu;
      destruct (Qpos_bool (_detect_suspicious_numbers text)) eqn:En;
      simpl; apply Q.min_compat; try reflexivity; rewrite ?Hk'; lra.
  - assert (Hrs : (risk_score l == kw + 0)%Q) by (rewrite Hk'; lra).
    rewrite Hrs.
    destruct (Qpos_bool (_detect_contact_info text) && Qpos_bool _) eqn:Ec;
      destruct (Qgt_tenth (_detect_urgency text)) eqn:Eu;
      destruct (Qpos_bool (_detect_suspicious_numbers text)) eqn:En;
      simpl; apply Q.min_compat; try reflexivity; rewrite ?Hk'; lra.
Qed.

Lemma perform_detection_level kdb text id :
  level (_perform_detection kdb text id)
  = level_of_score (score (_perform_detection kdb text id)).
Proof.
  unfold _perform_detection. destruct_gates; reflexivity.
Qed.

Lemma perform_detection_id kdb text id :
  detection_id (_perform_detection kdb text id) = id.
Proof.
  unfold _perform_detection. destruct_gates; reflexivity.
Qed.

Lemma level_of_score_thresholds r :
  level r = level_of_score (score r) -> thresholds_ok r.
Proof.
  unfold thresholds_ok. intros ->. unfold level_of_score.
  destruct (Qle_bool 0.7 (score r)) eqn:E7;
    destruct (Qle_bool 0.4 (score r)) eqn:E4;
    try apply Qle_bool_iff in E7; try apply Qle_bool_iff in E4;
    try (apply not_true_iff_false in E7; rewrite Qle_bool_iff in E7);
    try (apply not_true_iff_false in E4; rewrite Qle_bool_iff in E4);
    repeat split; intros; try reflexivity; exfalso; lra.
Qed.

Lemma gated_sum_nonneg kdb text : (0 <= gated_sum kdb text)%Q.
Proof.
  unfold gated_sum, gate.
  pose proof (keyword_total_nonneg text kdb).
  pose proof (_detect_suspicious_numbers_nonneg text).
  destruct (Qgt_tenth (_detect_language_patterns text)) eqn:Ep;
    [apply Qgt_tenth_true in Ep|];
    (destruct (Qpos_bool (_detect_contact_info text) && Qpos_bool _) eqn:Ec;
     [apply andb_true_iff in Ec as [Ec%Qpos_bool_true _]|]);
    (destruct (Qgt_tenth (_detect_urgency text)) eqn:Eu;
     [apply Qgt_tenth_true in Eu|]); lra.
Qed.

Lemma perform_detection_ok kdb text id :
  result_ok (_perform_detection kdb text id).
Proof.
  pose proof (perform_detection_score kdb text id) as Hs.
  pose proof (gated_sum_nonneg kdb text) as H0.
  split; [|split].
  - rewrite Hs. apply Q.min_glb; lra.
  - rewrite Hs. apply Q.le_min_r.
  - apply perform_detection_level.
Qed.

End Scoring.

(** ** Dictionaries *)

Section Dict_lemmas.
Context {V : Type}.
Implicit Types (d : list (pystr * V)) (k : pystr) (v : V).

Lemma dict_get_None d k : dict_get d k = None <-> k ∉ d.*1.
Proof.
  unfold dict_get. induction d as [|[k' v'] d IH]; csimpl.
  - split; [intros _; apply not_elem_of_nil | done].
  - rewrite not_elem_of_cons. case_bool_decide as E; simpl.
    + split; [done | intros [? _]; congruence].
    + rewrite IH. split; [intros ?; split; [congruence | done] | by intros [_ ?]].
Qed.

Lemma dict_get_Some d k v : dict_get d k = Some v -> (k, v) ∈ d.
Proof.
  unfold dict_get. induction d as [|[k' v'] d IH]; simpl; [done|].
  case_bool_decide as E; simpl in *.
  - intros [= ->]. subst. left.
  - intros H. right. auto.
Qed.

Lemma dict_get_NoDup d k v : NoDup d.*1 -> (k, v) ∈ d -> dict_get d k = Some v.
Proof.
  unfold dict_get. induction d as [|[k' v'] d IH]; csimpl.
  - intros _ H. by apply elem_of_nil in H.
  - intros [Hk Hd]%NoDup_cons [[= -> ->]|Hin]%elem_of_cons.
    + by rewrite bool_decide_eq_true_2.
    + case_bool_decide as E; simpl in *; [|auto].
      subst k'. exfalso. apply Hk.
      apply list_elem_of_fmap. by exists (k, v).
Qed.

Lemma dict_mem_true d k : dict_mem d k = true <-> is_Some (dict_get d k).
Proof.
  unfold dict_mem. rewrite bool_decide_eq_true.
  destruct (dict_get d k) eqn:E.
  - split; [eauto|]. intros _.
    apply dict_get_Some in E. apply list_elem_of_fmap. by exists (k, v).
  - apply dict_get_None in E. split; [done | intros [? [=]]].
Qed.

Lemma dict_mem_false d k : dict_mem d k = false <-> dict_get d k = None.
Proof.
  rewrite <- not_true_iff_false, dict_mem_true, <- eq_None_not_Some. done.
Qed.

Lemma dict_set_new d k v : k ∉ d.*1 -> dict_set d k v = d ++ [(k, v)].
Proof.
  induction d as [|[k' v'] d IH]; simpl; [done|].
  rewrite not_elem_of_cons. intros [Hne Hk].
  rewrite bool_decide_eq_false_2 by congruence. by rewrite IH.
Qed.

Lemma dict_set_keys_old d k v : k ∈ d.*1 -> (dict_set d k v).*1 = d.*1.
Proof.
  induction d as [|[k' v'] d IH]; csimpl.
  - intros H. by apply elem_of_nil in H.
  - case_bool_decide as E; csimpl; [by subst|].
    intros [?|Hin]%elem_of_cons; [congruence|]. by rewrite IH.
Qed.

Lemma dict_del_notin d k : k ∉ d.*1 -> dict_del d k = d.
Proof.
  unfold dict_del. induction d as [|[k' v'] d IH]; simpl; [done|].
  rewrite not_elem_of_cons. intros [Hne Hk].
  rewrite bool_decide_eq_false_2 by congruence. simpl. by rewrite IH.
Qed.

Lemma dict_del_head d k v : k ∉ d.*1 -> dict_del ((k, v) :: d) k = d.
Proof.
  intros Hk. unfold dict_del. simpl.
  rewrite bool_decide_eq_true_2 by done. simpl. by apply dict_del_notin.
Qed.

(** Deleting the first [n] keys, one by one, drops the first [n] entries. *)
Lemma dict_del_first_keys d n :
  NoDup d.*1 -> fold_left dict_del (take n d.*1) d = drop n d.
Proof.
  revert n. induction d as [|[k v] d IH]; intros n Hnd.
  - by destruct n.
  - destruct n as [|n]; [done|].
    rewrite fmap_cons in Hnd. apply NoDup_cons in Hnd as [Hk Hd].
    rewrite fmap_cons. cbn [take fold_left fst].
    rewrite dict_del_head by done. by apply IH.
Qed.

End Dict_lemmas.


(** ** The cache: [_cleanup_cache] and [cache_put] *)

Lemma cleanup_cache_drop c :
  NoDup c.*1 ->
  _cleanup_cache c
  = if (1000 <? length c)%nat then drop (length c / 2) c else c.
Proof.
  intros Hnd. unfold _cleanup_cache.
  destruct (1000 <? length c)%nat; [|done]. by apply dict_del_first_keys.
Qed.

Lemma cache_put_new c k a :
  NoDup c.*1 -> k ∉ c.*1 ->
  cache_put c k a
  = if (1000 <=? length c)%nat
    then drop ((length c + 1) / 2) (c ++ [(k, a)])
    else c ++ [(k, a)].
Proof.
  intros Hnd Hk. unfold cache_put. rewrite dict_set_new by done.
  rewrite cleanup_cache_drop.
  - rewrite length_app. cbn [length].
    destruct (Nat.leb_spec 1000 (length c));
      destruct (Nat.ltb_spec 1000 (length c + 1)); try done; lia.
  - rewrite fmap_app. apply NoDup_app. repeat split; [done| |apply NoDup_singleton].
    intros x Hx [->|[]%elem_of_nil]%elem_of_cons. done.
Qed.

Lemma cache_put_old c k a :
  (length c <= 1000)%nat -> k ∈ c.*1 -> cache_put c k a = dict_set c k a.
Proof.
  intros Hlen Hk. unfold cache_put, _cleanup_cache.
  assert (length (dict_set c k a) = length c) as ->.
  { rewrite <- (length_fmap fst (dict_set c k a)), dict_set_keys_old by done.
    by rewrite length_fmap. }
  by rewrite (proj2 (Nat.ltb_ge _ _)) by lia.
Qed.

Lemma cache_put_new_facts c k a :
  NoDup c.*1 -> k ∉ c.*1 ->
  NoDup (cache_put c k a).*1
  /\ dict_get (cache_put c k a) k = Some a
  /\ (forall e, e ∈ cache_put c k a -> e ∈ c \/ e = (k, a))
  /\ (length c < 1000 -> cache_put c k a = c ++ [(k, a)])%nat.
Proof.
  intros Hnd Hk.
  assert (Hnd' : NoDup (c ++ [(k, a)]).*1).
  { rewrite fmap_app. apply NoDup_app. repeat split; [done| |apply NoDup_singleton].
    intros x Hx [->|[]%elem_of_nil]%elem_of_cons. done. }
  rewrite cache_put_new by done.
  destruct (Nat.leb_spec 1000 (length c)) as [Hge|Hlt].
  - split; [|split; [|split]].
    + rewrite fmap_drop. eapply sublist_NoDup; [exact Hnd' | apply sublist_drop].
    + apply dict_get_NoDup.
      * rewrite fmap_drop. eapply sublist_NoDup; [exact Hnd' | apply sublist_drop].
      * apply list_elem_of_lookup. exists (length c - (length c + 1) / 2)%nat.
        rewrite lookup_drop.
        assert ((length c + 1) / 2 <= length c)%nat.
        { apply Nat.Div0.div_le_upper_bound. lia. }
        replace ((length c + 1) / 2 + (length c - (length c + 1) / 2))%nat
          with (length c + 0)%nat by lia.
        by rewrite lookup_app_r, Nat.add_0_r, Nat.sub_diag by lia.
    + intros e He. apply (subseteq_drop _ _ e) in He.
      apply elem_of_app in He as [?|[->|[]%elem_of_nil]%elem_of_cons]; auto.
    + lia.
  - split; [done|split; [|split; [|done]]].
    { apply dict_get_NoDup; [done|]. apply elem_of_app. right. left. }
    intros e [?|[->|[]%elem_of_nil]%elem_of_cons]%elem_of_app; auto.
Qed.


Lemma cache_puts_app es1 es2 c :
  cache_puts (es1 ++ es2) c = cache_puts es2 (cache_puts es1 c).
Proof. unfold cache_puts. apply fold_left_app. Qed.

(** Below the ceiling, distinct keys just accumulate in insertion order. *)
Lemma cache_puts_small entries c :
  NoDup (c ++ entries).*1 ->
  (length (c ++ entries) <= 1000)%nat ->
  cache_puts entries c = c ++ entries.
Proof.
  revert c. induction entries as [|[k a] entries IH]; intros c Hnd Hlen.
  - by rewrite app_nil_r.
  - change (cache_puts ((k, a) :: entries) c)
      with (cache_puts entries (cache_put c k a)).
    replace (c ++ (k, a) :: entries) with ((c ++ [(k, a)]) ++ entries) in *
      by (by rewrite <- app_assoc).
    rewrite !fmap_app in Hnd. rewrite !length_app in Hlen. cbn [length] in Hlen.
    assert (Hc : NoDup c.*1) by (by apply NoDup_app in Hnd as [[? _]%NoDup_app _]).
    assert (Hk : k ∉ c.*1).
    { apply NoDup_app in Hnd as [(_ & Hd & _)%NoDup_app _].
      intros Hin. apply (Hd _ Hin). left. }
    destruct (cache_put_new_facts c k a Hc Hk) as (_ & _ & _ & Hsmall).
    rewrite Hsmall by lia.
    apply IH; [by rewrite !fmap_app | rewrite !length_app; cbn [length]; lia].
Qed.

(** A dictionary invariant of [put]: distinct keys, at most 1000 entries. *)
Lemma cache_put_bounded c k a :
  NoDup c.*1 -> (length c <= 1000)%nat ->
  NoDup (cache_put c k a).*1 /\ (length (cache_put c k a) <= 1000)%nat.
Proof.
  intros Hnd Hlen. destruct (decide (k ∈ c.*1)) as [Hin|Hnin].
  - rewrite cache_put_old by done.
    assert (Hkeys := dict_set_keys_old c k a Hin).
    split; [by rewrite Hkeys|].
    by rewrite <- (length_fmap fst), Hkeys, length_fmap.
  - split; [by apply cache_put_new_facts|].
    rewrite cache_put_new by done.
    destruct (Nat.leb_spec 1000 (length c)).
    + rewrite length_drop, length_app. cbn [length].
      assert (length c = 1000)%nat as -> by lia. simpl. lia.
    + rewrite length_app. cbn [length]. lia.
Qed.

Lemma cache_puts_bounded entries c :
  NoDup c.*1 -> (length c <= 1000)%nat ->
  NoDup (cache_puts entries c).*1 /\ (length (cache_puts entries c) <= 1000)%nat.
Proof.
  revert c. induction entries as [|[k a] entries IH]; intros c Hnd Hlen; [done|].
  change (cache_puts ((k, a) :: entries) c)
    with (cache_puts entries (cache_put c k a)).
  destruct (cache_put_bounded c k a Hnd Hlen). by apply IH.
Qed.

Lemma cache_puts_1001 entries :
  NoDup entries.*1 -> length entries = 1001%nat ->
  cache_puts entries [] = drop 500 entries.
Proof.
  intros Hnd Hlen.
  destruct (decide (entries = [])) as [->|Hne]; [done|].
  destruct (exists_last Hne) as (es & [k a] & ->).
  rewrite length_app in Hlen. cbn [length] in Hlen.
  rewrite cache_puts_app, (cache_puts_small es []).
  - rewrite app_nil_l.
    change (cache_puts [(k, a)] es) with (cache_put es k a).
    rewrite fmap_app in Hnd. apply NoDup_app in Hnd as (Hes & Hd & _).
    rewrite cache_put_new; [|done|].
    + assert (length es = 1000)%nat as -> by lia. done.
    + intros Hin. apply (Hd _ Hin). left.
  - rewrite app_nil_l. rewrite fmap_app in Hnd.
    by apply NoDup_app in Hnd as (Hes & _).
  - rewrite app_nil_l. lia.
Qed.

(** ** The engine: invariants of [detect_text_wrapped] *)

Section Engine_lemmas.
Context {U : Unicode}.

Lemma detect_text_outcome w text id pt :
  outcome w text id pt
    (detect_text_wrapped w text id pt).1 (detect_text_wrapped w text id pt).2.
Proof.
  unfold detect_text_wrapped, detect_text_try.
  destruct (_generate_cache_key text) as [e|key] eqn:Ek.
  - simpl. by eapply outcome_failed.
  - destruct (dict_mem (cache (self w)) key) eqn:Em.
    + apply dict_mem_true in Em as [a Ha]. rewrite Ha. simpl.
      by eapply outcome_hit.
    + apply dict_mem_false in Em. simpl. by eapply outcome_miss.
Qed.

Lemma detect_text_wf w text id pt :
  wf_world w -> wf_world (detect_text_wrapped w text id pt).2.
Proof.
  intros [Hnd Hrefs].
  destruct (detect_text_outcome w text id pt) as [e He|key a Hk Ha|key Hk Hnone];
    split; simpl; try done.
  - eapply Forall_impl; [exact Hrefs|]. intros [k a] ?. simpl in *.
    rewrite length_app. simpl. lia.
  - eapply Forall_impl; [exact Hrefs|]. intros [k b] ?. simpl in *.
    by rewrite length_alter.
  - apply dict_get_None in Hnone.
    by apply (cache_put_new_facts _ key (length (heap w))).
  - apply dict_get_None in Hnone.
    destruct (cache_put_new_facts _ key (length (heap w)) Hnd Hnone)
      as (_ & _ & Hin & _).
    apply Forall_forall. intros e He. rewrite length_app. simpl.
    apply Hin in He as [He| ->]; simpl; [|lia].
    rewrite Forall_forall in Hrefs. specialize (Hrefs _ He). lia.
Qed.

Lemma wf_world_init : wf_world world_init.
Proof. split; simpl; [apply NoDup_nil_2 | apply Forall_nil_2]. Qed.

(** The decorated method leaves the state that the function under the
    decorator leaves, and raises. *)
Lemma detect_text_world w text id pt :
  (detect_text w text id pt).2 = (detect_text_wrapped w text id pt).2.
Proof.
  unfold detect_text. by destruct (detect_text_wrapped w text id pt).
Qed.

Lemma detect_text_raises w text id pt :
  (detect_text w text id pt).1 = inl NameError.
Proof.
  unfold detect_text. by destruct (detect_text_wrapped w text id pt).
Qed.

(** [initialize] leaves the state of its test detection, run on the reloaded
    table and the reset statistics. *)
Lemma initialize_world w id pt :
  (initialize w id pt).2
  = (detect_text_wrapped
       {| heap := heap w;
          self :=
            {| cache := cache (self w);
               statistics := DetectionStats_init;
               keywords_db := _load_keywords;
               is_initialized := is_initialized (self w) |} |}
       (u "测试文本") id pt).2.
Proof.
  unfold initialize.
  match goal with |- context [detect_text ?w1 ?t _ _] =>
    pose proof (detect_text_world w1 t id pt) as Hw;
    pose proof (detect_text_raises w1 t id pt) as Hr;
    destruct (detect_text w1 t id pt) as [[e|a] w2] end;
    simpl in *; [done | discriminate Hr].
Qed.

Lemma initialize_wf w id pt :
  wf_world w -> wf_world (initialize w id pt).2.
Proof.
  intros Hw. rewrite initialize_world. by apply detect_text_wf.
Qed.

Lemma cleanup_wf w : wf_world w -> wf_world (cleanup w).
Proof. intros _. split; simpl; [apply NoDup_nil_2 | apply Forall_nil_2]. Qed.

Lemma reachable_wf w : reachable w -> wf_world w.
Proof.
  induction 1 as [|w text id pt _ IH|w id pt _ IH|w _ IH].
  - apply wf_world_init.
  - rewrite detect_text_world. by apply detect_text_wf.
  - by apply initialize_wf.
  - by apply cleanup_wf.
Qed.

End Engine_lemmas.

Section Detect.
Context {U : Unicode}.

Lemma fallback_result_ok id : result_ok (fallback_result id).
Proof. repeat split; simpl; try lra. Qed.

Lemma set_detection_id_ok id r : result_ok r -> result_ok (set_detection_id id r).
Proof. intros H. exact H. Qed.

Lemma detect_text_heap_ok w text id pt :
  Forall result_ok (heap w) ->
  Forall result_ok (heap (detect_text_wrapped w text id pt).2).
Proof.
  intros Hh.
  destruct (detect_text_outcome w text id pt) as [e He|key a Hk Ha|key Hk Hnone];
    simpl.
  - apply Forall_app. split; [done|]. apply Forall_singleton, fallback_result_ok.
  - apply Forall_alter; [done|]. intros r _. apply set_detection_id_ok.
  - apply Forall_app. split; [done|]. apply Forall_singleton, perform_detection_ok.
Qed.

Lemma reachable_heap_ok w : reachable w -> Forall result_ok (heap w).
Proof.
  induction 1 as [|w text id pt _ IH|w id pt _ IH|w _ IH]; simpl.
  - apply Forall_nil_2.
  - rewrite detect_text_world. by apply detect_text_heap_ok.
  - rewrite initialize_world. by apply detect_text_heap_ok.
  - exact IH.
Qed.

(** The reference that the function under the decorator returns points to
    an object. *)
Lemma detect_text_returns w text id pt :
  wf_world w ->
  is_Some (heap (detect_text_wrapped w text id pt).2
           !! (detect_text_wrapped w text id pt).1).
Proof.
  intros [Hnd Hrefs].
  destruct (detect_text_outcome w text id pt) as [e He|key a Hk Ha|key Hk Hnone];
    simpl; apply lookup_lt_is_Some.
  - rewrite length_app. simpl. lia.
  - rewrite length_alter. apply dict_get_Some in Ha.
    rewrite Forall_forall in Hrefs. by apply (Hrefs _ Ha).
  - rewrite length_app. simpl. lia.
Qed.

(** The object that it returns carries the detection id of that call. *)
Lemma detect_text_id w text id pt r :
  heap (detect_text_wrapped w text id pt).2
  !! (detect_text_wrapped w text id pt).1 = Some r ->
  detection_id r = id.
Proof.
  destruct (detect_text_outcome w text id pt) as [e He|key a Hk Ha|key Hk Hnone];
    simpl.
  - rewrite lookup_app_r, Nat.sub_diag by lia. by intros [= <-].
  - rewrite list_lookup_alter_eq. destruct (heap w !! a); [|done].
    by intros [= <-].
  - rewrite lookup_app_r, Nat.sub_diag by lia. intros [= <-].
    apply perform_detection_id.
Qed.

Lemma generate_cache_key_inl text e :
  _generate_cache_key text = inl e <-> utf8_encode text = None /\ e = UnicodeEncodeError.
Proof.
  unfold _generate_cache_key. destruct (utf8_encode text); split.
  - intros [=]. - intros [[=] _]. - by intros [= <-]. - by intros [_ ->].
Qed.

Lemma detect_text_try_inl w text id pt e :
  detect_text_try w text id pt = inl e -> _generate_cache_key text = inl e.
Proof.
  unfold detect_text_try.
  destruct (_generate_cache_key text) as [e'|key]; [congruence|].
  destruct (dict_mem _ key) eqn:Em; [|done].
  apply dict_mem_true in Em as [a Ha]. by rewrite Ha.
Qed.

(** Once a key is cached, the next detection of a text of that key is a hit
    on the very same object. *)
Lemma detect_text_cached w text id pt key a :
  _generate_cache_key text = inr key ->
  dict_get (cache (self w)) key = Some a ->
  detect_text_wrapped w text id pt
  = (a, {| heap := alter (set_detection_id id) a (heap w); self := self w |}).
Proof.
  intros Hk Ha. unfold detect_text_wrapped, detect_text_try. rewrite Hk.
  rewrite (proj2 (dict_mem_true _ _)) by (rewrite Ha; eauto). by rewrite Ha.
Qed.

(** After a detection of a text with key [key], the key is cached and bound
    to the returned reference. *)
Lemma detect_text_caches w text id pt key :
  wf_world w ->
  _generate_cache_key text = inr key ->
  dict_get (cache (self (detect_text_wrapped w text id pt).2)) key
  = Some (detect_text_wrapped w text id pt).1.
Proof.
  intros [Hnd Hrefs] Hk.
  destruct (detect_text_outcome w text id pt) as [e He|key' a Hk' Ha|key' Hk' Hnone];
    simpl.
  - congruence.
  - congruence.
  - assert (key' = key) as -> by congruence.
    apply dict_get_None in Hnone.
    by apply cache_put_new_facts.
Qed.

Lemma cache_hit_true w text :
  cache_hit w text = true
  <-> exists key a, _generate_cache_key text = inr key
                    /\ dict_get (cache (self w)) key = Some a.
Proof.
  unfold cache_hit. destruct (_generate_cache_key text) as [e|key].
  - split; [done | by intros (? & ? & [=] & _)].
  - rewrite dict_mem_true. split.
    + intros [a Ha]. eauto.
    + intros (? & a & [= <-] & Ha). eauto.
Qed.

(** Two successive detections of texts of the same key. *)
Lemma detect_text_twice w t1 t2 id1 pt1 id2 pt2 key :
  wf_world w ->
  _generate_cache_key t1 = inr key ->
  _generate_cache_key t2 = inr key ->
  let c1 := detect_text_wrapped w t1 id1 pt1 in
  let c2 := detect_text_wrapped c1.2 t2 id2 pt2 in
  cache_hit c1.2 t2 = true
  /\ c2.1 = c1.1
  /\ self c2.2 = self c1.2
  /\ exists r1, heap c1.2 !! c1.1 = Some r1
                /\ heap c2.2 !! c2.1 = Some (set_detection_id id2 r1).
Proof.
  intros Hw Hk1 Hk2 c1 c2.
  pose proof (detect_text_caches w t1 id1 pt1 key Hw Hk1) as Hc.
  pose proof (detect_text_returns w t1 id1 pt1 Hw) as [r1 Hr1].
  subst c2 c1.
  rewrite (detect_text_cached _ t2 id2 pt2 key _ Hk2 Hc). simpl.
  split; [|split; [done|split; [done|]]].
  - apply cache_hit_true. eauto.
  - exists r1. split; [done|]. by rewrite list_lookup_alter_eq, Hr1.
Qed.

End Detect.

Section Cache_of_the_engine.
Context {U : Unicode}.

Lemma detect_text_cache_bounded w text id pt :
  NoDup (cache (self w)).*1 ->
  (length (cache (self w)) <= 1000)%nat ->
  (length (cache (self (detect_text_wrapped w text id pt).2)) <= 1000)%nat.
Proof.
  intros Hnd Hlen.
  destruct (detect_text_outcome w text id pt) as [e He|key a Hk Ha|key Hk Hnone];
    simpl; try done.
  by apply cache_put_bounded.
Qed.

Lemma reachable_cache_bounded w :
  reachable w -> (length (cache (self w)) <= 1000)%nat.
Proof.
  induction 1 as [|w text id pt Hw IH|w id pt Hw IH|w _ IH].
  - simpl. lia.
  - rewrite detect_text_world.
    apply detect_text_cache_bounded; [|done]. by apply reachable_wf.
  - rewrite initialize_world.
    apply detect_text_cache_bounded; [|exact IH].
    exact (proj1 (reachable_wf w Hw)).
  - simpl. lia.
Qed.

Lemma detect_text_failed w text id pt e :
  _generate_cache_key text = inl e ->
  detect_text_wrapped w text id pt
  = (length (heap w),
     {| heap := heap w ++ [fallback_result id]; self := self w |}).
Proof. intros He. unfold detect_text_wrapped, detect_text_try. by rewrite He. Qed.

End Cache_of_the_engine.

(** ** The vote *)

Lemma dict_get_set {V} (d : list (pystr * V)) k k' v :
  dict_get (dict_set d k v) k'
  = if bool_decide (k = k') then Some v else dict_get d k'.
Proof.
  unfold dict_get. induction d as [|[k0 v0] d IH]; simpl.
  - by case_bool_decide.
  - destruct (decide (k0 = k)) as [->|Hne].
    + rewrite bool_decide_eq_true_2 by done. simpl. by case_bool_decide.
    + rewrite (bool_decide_eq_false_2 (k0 = k)) by done. simpl.
      destruct (decide (k0 = k')) as [->|Hne'].
      * rewrite (bool_decide_eq_true_2 (k' = k')) by done.
        by rewrite (bool_decide_eq_false_2 (k = k')) by congruence.
      * rewrite (bool_decide_eq_false_2 (k0 = k')) by done. exact IH.
Qed.

(** [max_from] returns an entry that no entry exceeds. *)
Lemma max_from_spec best d :
  AIModelManager.max_from best d ∈ best :: d
  /\ Forall (fun e => (e.2 <= (AIModelManager.max_from best d).2)%Q) (best :: d).
Proof.
  revert best. induction d as [|e d IH]; intros best; simpl.
  - split; [left | apply Forall_singleton; lra].
  - destruct (Qle_bool e.2 best.2) eqn:E.
    + apply Qle_bool_iff in E. destruct (IH best) as [Hin Hall].
      split.
      * apply elem_of_cons in Hin as [->|Hin]; [left | right; by right].
      * apply Forall_cons in Hall as [Hb Hd].
        repeat (apply Forall_cons; split); [done | lra | done].
    + apply not_true_iff_false in E. rewrite Qle_bool_iff in E.
      apply Qnot_le_lt in E. destruct (IH e) as [Hin Hall].
      split; [by right|].
      apply Forall_cons in Hall as [He Hd].
      repeat (apply Forall_cons; split); [lra | done | done].
Qed.

Section Voting_lemmas.
Context {U : Unicode}.
Import AIModelManager.

Lemma vote_step_spec weights t pred :
  (votes t).*1 = level_names -> prediction pred ∈ level_names ->
  exists t',
    vote_step weights (inr t) pred = inr t'
    /\ (votes t').*1 = level_names
    /\ (forall l, l ∈ level_names ->
        exists v v', dict_get (votes t) l = Some v
                     /\ dict_get (votes t') l = Some v'
                     /\ (v' == v + vote_mass weights l [pred])%Q)
    /\ (total_confidence t'
        == total_confidence t + weighted_confidence weights [pred])%Q.
Proof.
  intros Hkeys Hvalid. unfold vote_step.
  destruct (dict_get (votes t) (prediction pred)) as [v0|] eqn:Eg.
  2:{ apply dict_get_None in Eg. rewrite Hkeys in Eg. done. }
  eexists. split; [reflexivity|]. simpl.
  split; [|split].
  - rewrite dict_set_keys_old; [done|]. by rewrite Hkeys.
  - intros l Hl. rewrite dict_get_set.
    unfold vote_mass. simpl. fold (weight_of weights pred).
    case_bool_decide as E.
    + subst l. exists v0, (v0 + weight_of weights pred * confidence pred)%Q.
      repeat split; [done|]. lra.
    + destruct (dict_get (votes t) l) as [v|] eqn:El.
      * exists v, v. repeat split. lra.
      * apply dict_get_None in El. rewrite Hkeys in El. done.
  - unfold weighted_confidence. simpl. fold (weight_of weights pred). lra.
Qed.

(** The loop over the predictions adds, to each level, its vote mass. *)
Lemma vote_loop_spec weights predictions t :
  (votes t).*1 = level_names ->
  Forall (fun pred => prediction pred ∈ level_names) predictions ->
  exists t',
    fold_left (vote_step weights) predictions (inr t) = inr t'
    /\ (votes t').*1 = level_names
    /\ (forall l, l ∈ level_names ->
        exists v v', dict_get (votes t) l = Some v
                     /\ dict_get (votes t') l = Some v'
                     /\ (v' == v + vote_mass weights l predictions)%Q)
    /\ (total_confidence t'
        == total_confidence t + weighted_confidence weights predictions)%Q.
Proof.
  revert t. induction predictions as [|pred predictions IH]; intros t Hkeys Hall.
  - exists t. split; [done|split; [done|split]].
    + intros l Hl. destruct (dict_get (votes t) l) as [v|] eqn:El.
      * exists v, v. repeat split. simpl. lra.
      * apply dict_get_None in El. rewrite Hkeys in El. done.
    + simpl. lra.
  - apply Forall_cons in Hall as [Hv Hall].
    destruct (vote_step_spec weights t pred Hkeys Hv)
      as (t1 & Hstep & Hkeys1 & Hvotes1 & Htot1).
    destruct (IH t1 Hkeys1 Hall) as (t' & Hfold & Hkeys' & Hvotes' & Htot').
    exists t'. cbn [fold_left]. rewrite Hstep.
    split; [done|split; [done|split]].
    + intros l Hl.
      destruct (Hvotes1 l Hl) as (v & v1 & Hv0 & Hv1 & E1).
      destruct (Hvotes' l Hl) as (v1' & v' & Hv1' & Hv' & E').
      assert (v1' = v1) as -> by congruence.
      exists v, v'. repeat split; [done..|].
      rewrite E', E1. unfold vote_mass. simpl.
      case_bool_decide; lra.
    + rewrite Htot', Htot1. unfold weighted_confidence. simpl. lra.
Qed.

End Voting_lemmas.

(* ===================================================================== *)
(** * The claims *)
(* ===================================================================== *)

Section Claims.
Context {U : Unicode}.

(** C1.  For every text the score of the detection result lies in [0,1], and
    the level is the function [level_of_score] of the score: at least 0.7
    gives DANGER, from 0.4 up to 0.7 WARNING, below 0.4 SAFE.  This holds of
    what [_perform_detection] builds, for any keyword table, and of the
    result of the function under the decorator of [detect_text] in any state
    the engine reaches (fresh result, cached result or fallback). *)
Theorem C1_score_bounds_and_thresholds :
  (forall kdb text id,
     let r := _perform_detection kdb text id in
     (0 <= score r)%Q /\ (score r <= 1)%Q
     /\ level r = level_of_score (score r) /\ thresholds_ok r)
  /\ (forall w text id pt,
        reachable w ->
        exists r,
          heap (detect_text_wrapped w text id pt).2
          !! (detect_text_wrapped w text id pt).1 = Some r
          /\ (0 <= score r)%Q /\ (score r <= 1)%Q
          /\ level r = level_of_score (score r) /\ thresholds_ok r).
Proof.
  split.
  - intros kdb text id r.
    destruct (perform_detection_ok kdb text id) as (H0 & H1 & Hl).
    auto using level_of_score_thresholds.
  - intros w text id pt Hw.
    destruct (detect_text_returns w text id pt (reachable_wf w Hw)) as [r Hr].
    exists r. split; [done|].
    pose proof (detect_text_heap_ok w text id pt (reachable_heap_ok w Hw)) as Hh.
    rewrite Forall_lookup in Hh. destruct (Hh _ _ Hr) as (H0 & H1 & Hl).
    auto using level_of_score_thresholds.
Qed.

(** C2 on the code.  Every call of [detect_text] raises [NameError], in every
    state and for every text.  The function under the decorator does what the
    claim says: it returns a result, the fallback one of level SAFE and
    confidence 0.1 when its [try] raises, as for a text with a lone
    surrogate.  The logging wrapper around it then fails on [time.time()],
    and the caller gets the exception, with the engine in the state that the
    detection left. *)
Theorem C2_detect_text_raises_NameError :
  (forall w text id pt,
     (detect_text w text id pt).1 = inl NameError
     /\ (detect_text w text id pt).2 = (detect_text_wrapped w text id pt).2)
  /\ detect_text world_init text_test (u "id-1") 0%Q
     = (inl NameError,
        (detect_text_wrapped world_init text_test (u "id-1") 0%Q).2)
  /\ (let c := detect_text_wrapped world_init text_surrogate (u "id-1") 0%Q in
      detect_text_try world_init text_surrogate (u "id-1") 0%Q
      = inl UnicodeEncodeError
      /\ heap c.2 !! c.1 = Some (fallback_result (u "id-1"))
      /\ level (fallback_result (u "id-1")) = SAFE
      /\ (confidence (fallback_result (u "id-1")) == 0.1)%Q
      /\ (detect_text world_init text_surrogate (u "id-1") 0%Q).1
         = inl NameError).
Proof.
  split; [|split].
  - intros w text id pt. split.
    + apply detect_text_raises.
    + apply detect_text_world.
  - reflexivity.
  - repeat split; reflexivity.
Qed.

(** What the function under the decorator hands to the wrapper: in every
    state the engine reaches a reference to a result, which is the fallback
    one whenever the body of the [try] raises. *)
Lemma detect_text_wrapped_returns_fallback w text id pt :
  reachable w ->
  exists r,
    heap (detect_text_wrapped w text id pt).2
    !! (detect_text_wrapped w text id pt).1 = Some r
    /\ (forall e, detect_text_try w text id pt = inl e ->
        r = fallback_result id /\ level r = SAFE /\ (confidence r == 0.1)%Q).
Proof.
  intros Hw.
  destruct (detect_text_returns w text id pt (reachable_wf w Hw)) as [r Hr].
  exists r. split; [done|]. intros e He%detect_text_try_inl.
  rewrite (detect_text_failed w text id pt e He) in Hr. simpl in Hr.
  rewrite lookup_app_r, Nat.sub_diag in Hr by lia. injection Hr as <-.
  repeat split; reflexivity.
Qed.

(** C4, as amended.  The score is the sum, clamped to at most 1, of the
    keyword total, the language-pattern contribution if it exceeds 0.1, the
    contact contribution if it is positive and the running total is already
    positive, the urgency contribution if it exceeds 0.1, and the numeric
    contribution.  The urgency contribution exceeds 0.1 exactly when at least
    three urgency words occur; otherwise it adds nothing. *)
Theorem C4_score_is_clamped_gated_sum kdb text id :
  (score (_perform_detection kdb text id) == Qmin (gated_sum kdb text) 1)%Q
  /\ (Qgt_tenth (_detect_urgency text) = true <-> (3 <= urgency_count text)%Z)
  /\ (Qgt_tenth (_detect_urgency text) = false ->
      gate (Qgt_tenth (_detect_urgency text)) (_detect_urgency text) = 0%Q).
Proof.
  split; [apply perform_detection_score|split].
  - rewrite Qgt_tenth_true. unfold _detect_urgency.
    set (c := urgency_count text).
    split.
    + intros H. destruct (Z_lt_le_dec c 3) as [Hlt|]; [|done]. exfalso.
      assert (inject_Z c <= inject_Z 2)%Q by (rewrite <- Zle_Qle; lia).
      pose proof (Q.le_min_l (inject_Z c * 0.05) 0.2).
      change (inject_Z 2) with 2%Q in *. lra.
    + intros H.
      assert (inject_Z 3 <= inject_Z c)%Q by (by rewrite <- Zle_Qle).
      change (inject_Z 3) with 3%Q in *.
      apply Q.min_glb_lt; lra.
  - intros ->. reflexivity.
Qed.

(** C7, as amended.  The detections of two successive calls of [detect_text]
    on the same text, that is the two runs of the function under the
    decorator, the second in the state that the first call left, produce
    results with the same score, level, reasons and categories, each carrying
    the detection id of its call.  When the text has a UTF-8 encoding, the
    second detection is a cache hit: it hands back the very object of the
    first and leaves the engine as it was.  When it has none, nothing is
    cached and each detection builds a fallback result of its own.  What
    the caller of [detect_text] receives is not in this statement. *)
Theorem C7_detect_twice w text id1 pt1 id2 pt2 :
  reachable w ->
  let w1 := (detect_text w text id1 pt1).2 in
  let c1 := detect_text_wrapped w text id1 pt1 in
  let c2 := detect_text_wrapped w1 text id2 pt2 in
  (detect_text w1 text id2 pt2).2 = c2.2
  /\ exists r1 r2,
    heap w1 !! c1.1 = Some r1 /\ heap c2.2 !! c2.1 = Some r2
    /\ score r1 = score r2 /\ level r1 = level r2
    /\ reasons r1 = reasons r2 /\ categories r1 = categories r2
    /\ detection_id r1 = id1 /\ detection_id r2 = id2
    /\ (encodable text ->
        cache_hit w1 text = true /\ c2.1 = c1.1 /\ self c2.2 = self w1)
    /\ (~ encodable text ->
        cache_hit w1 text = false /\ c2.1 <> c1.1 /\ self c2.2 = self w
        /\ r1 = fallback_result id1 /\ r2 = fallback_result id2).
Proof.
  intros Hw%reachable_wf w1 c1 c2. subst w1 c2.
  rewrite !detect_text_world. fold c1. split; [done|].
  destruct (_generate_cache_key text) as [e|key] eqn:Ek.
  - assert (Hhit : forall w', cache_hit w' text = false).
    { intros w'. unfold cache_hit. by rewrite Ek. }
    subst c1. rewrite (detect_text_failed w text id1 pt1 e Ek). simpl.
    rewrite (detect_text_failed _ text id2 pt2 e Ek). simpl.
    exists (fallback_result id1), (fallback_result id2).
    split; [|split].
    + by rewrite lookup_app_r, Nat.sub_diag by lia.
    + by rewrite lookup_app_r, Nat.sub_diag by lia.
    + do 6 (split; [reflexivity|]). split.
      * intros [bs Hbs]. apply generate_cache_key_inl in Ek as [Hn _].
        congruence.
      * intros _. rewrite Hhit, length_app. simpl.
        repeat split; [lia].
  - destruct (detect_text_twice w text text id1 pt1 id2 pt2 key Hw Ek Ek)
      as (Hhit & Href & Hself & r1 & Hr1 & Hr2).
    exists r1, (set_detection_id id2 r1).
    pose proof (detect_text_id w text id1 pt1 r1 Hr1) as Hid.
    do 8 (split; [done|]). split; [done|].
    intros Hn. exfalso. apply Hn. unfold encodable.
    unfold _generate_cache_key in Ek. destruct (utf8_encode text); [eauto|done].
Qed.

(** C9, as amended.  The cache key is computed from the text as given, as
    the MD5 digest of its UTF-8 encoding, and not from its normalized form.
    A detection of a text whose key equals that of the text detected just
    before is a cache hit on the object of that detection, with only the
    detection id replaced, and changes nothing in the engine.  A detection
    of a text with another key, not cached before, is never answered from
    that entry: it builds a result of its own and, when the text has a key,
    binds it under that key.  What the caller of [detect_text] receives is
    not in this statement. *)
Theorem C9_cache_is_keyed_by_the_raw_text :
  (forall text key,
     _generate_cache_key text = inr key
     <-> exists bs, utf8_encode text = Some bs /\ key = md5_hexdigest bs)
  /\ (forall w t1 t2 key id1 pt1 id2 pt2,
        reachable w ->
        _generate_cache_key t1 = inr key ->
        _generate_cache_key t2 = inr key ->
        let w1 := (detect_text w t1 id1 pt1).2 in
        let c1 := detect_text_wrapped w t1 id1 pt1 in
        let c2 := detect_text_wrapped w1 t2 id2 pt2 in
        cache_hit w1 t2 = true
        /\ c2.1 = c1.1
        /\ self c2.2 = self w1
        /\ exists r1, heap w1 !! c1.1 = Some r1
                      /\ heap c2.2 !! c2.1 = Some (set_detection_id id2 r1))
  /\ (forall w t1 t2 id1 pt1 id2 pt2,
        reachable w ->
        _generate_cache_key t1 <> _generate_cache_key t2 ->
        cache_hit w t2 = false ->
        let w1 := (detect_text w t1 id1 pt1).2 in
        let c1 := detect_text_wrapped w t1 id1 pt1 in
        let c2 := detect_text_wrapped w1 t2 id2 pt2 in
        cache_hit w1 t2 = false
        /\ c2.1 <> c1.1
        /\ (forall key2, _generate_cache_key t2 = inr key2 ->
            dict_get (cache (self c2.2)) key2 = Some c2.1)).
Proof.
  split; [|split].
  - intros text key. unfold _generate_cache_key.
    destruct (utf8_encode text) as [bs|]; split.
    + intros [= <-]. eauto.
    + by intros (bs' & [= <-] & ->).
    + done.
    + by intros (bs' & [=] & _).
  - intros w t1 t2 key id1 pt1 id2 pt2 Hw%reachable_wf Hk1 Hk2 w1 c1 c2.
    subst w1 c2. rewrite detect_text_world. fold c1.
    by apply (detect_text_twice w t1 t2 id1 pt1 id2 pt2 key).
  - intros w t1 t2 id1 pt1 id2 pt2 Hw%reachable_wf Hne Hmiss w1 c1 c2.
    subst w1 c2. rewrite detect_text_world. fold c1.
    pose proof (detect_text_wf w t1 id1 pt1 Hw) as Hw1.
    pose proof (detect_text_returns w t1 id1 pt1 Hw) as Hlt%lookup_lt_is_Some.
    fold c1 in Hw1, Hlt.
    assert (Hmiss1 : cache_hit c1.2 t2 = false).
    { apply not_true_is_false. intros Hhit. apply not_true_iff_false in Hmiss.
      apply Hmiss. apply cache_hit_true in Hhit as (key2 & a & Hk2 & Ha).
      apply cache_hit_true. exists key2. subst c1.
      destruct (detect_text_outcome w t1 id1 pt1)
        as [e He|key a' Hk Ha'|key Hk Hnone]; simpl in Ha; [by eauto..|].
      assert (key <> key2) by congruence.
      apply dict_get_None in Hnone. destruct Hw as [Hnd _].
      destruct (cache_put_new_facts _ key (length (heap w)) Hnd Hnone)
        as (_ & _ & Hin & _).
      apply dict_get_Some, Hin in Ha as [Ha|[=]]; [|done].
      destruct (dict_get (cache (self w)) key2) as [b|] eqn:Eb; [eauto|].
      apply dict_get_None in Eb. exfalso. apply Eb.
      apply list_elem_of_fmap. by exists (key2, a). }
    split; [done|]. split.
    + destruct (detect_text_outcome c1.2 t2 id2 pt2)
        as [e He|key a Hk Ha|key Hk Hnone]; simpl; [lia| |lia].
      assert (cache_hit c1.2 t2 = true) by (apply cache_hit_true; eauto).
      congruence.
    + intros key2 Hk2. by apply detect_text_caches.
Qed.

(** C10.  A call of [detect_text] that is answered from the cache leaves
    the statistics unchanged; a call that misses the cache, on an encodable
    text, counts one more detection. *)
Theorem C10_cache_hit_keeps_statistics :
  (forall w text id pt,
     cache_hit w text = true ->
     statistics (self (detect_text w text id pt).2) = statistics (self w))
  /\ (forall w text id pt,
        cache_hit w text = false -> encodable text ->
        total_detections (statistics (self (detect_text w text id pt).2))
        = (total_detections (statistics (self w)) + 1)%N).
Proof.
  split; intros w text id pt Hhit; rewrite detect_text_world.
  - apply cache_hit_true in Hhit as (key & a & Hk & Ha).
    by rewrite (detect_text_cached w text id pt key a Hk Ha).
  - intros [bs Hbs].
    destruct (detect_text_outcome w text id pt) as [e He|key a Hk Ha|key Hk Hnone];
      simpl.
    + apply generate_cache_key_inl in He as [? _]. congruence.
    + assert (cache_hit w text = true) by (apply cache_hit_true; eauto).
      congruence.
    + reflexivity.
Qed.

(** C6.  Whatever is put into an empty cache, its size never exceeds 1000,
    and neither does the size of the engine's cache in any state it reaches.
    Putting 1001 entries with distinct keys leaves exactly the 501 most
    recent ones, in insertion order: a put of a new key into a cache of 1000
    or more entries drops the oldest half of the entries after the
    insertion. *)
Theorem C6_cache_bound :
  (forall entries, (length (cache_puts entries []) <= 1000)%nat)
  /\ (forall w, reachable w -> (length (cache (self w)) <= 1000)%nat)
  /\ (forall entries,
        NoDup entries.*1 -> length entries = 1001%nat ->
        cache_puts entries [] = drop 500 entries)
  /\ (forall c k a,
        NoDup c.*1 -> k ∉ c.*1 ->
        cache_put c k a
        = if (1000 <=? length c)%nat
          then drop ((length c + 1) / 2) (c ++ [(k, a)])
          else c ++ [(k, a)]).
Proof.
  split; [|split; [|split]].
  - intros entries. apply cache_puts_bounded; [apply NoDup_nil_2 | simpl; lia].
  - apply reachable_cache_bounded.
  - apply cache_puts_1001.
  - apply cache_put_new.
Qed.

End Claims.

Section Claim_vote.
Import AIModelManager.

(** The vote, for opinions that each predict one of the three levels. *)
Lemma weighted_voting_general {U : Unicode} predictions weights :
  predictions <> [] ->
  Forall (fun pred => prediction pred ∈ level_names) predictions ->
  exists e,
    _weighted_voting predictions weights = inr e
    /\ (forall l, l ∈ level_names ->
        exists v, dict_get (vote_scores e) l = Some v
                  /\ (v == vote_mass weights l predictions)%Q)
    /\ final_prediction e ∈ level_names
    /\ (forall l, l ∈ level_names ->
        (vote_mass weights l predictions
         <= vote_mass weights (final_prediction e) predictions)%Q)
    /\ (final_confidence e
        == weighted_confidence weights predictions
           / inject_Z (Z.of_nat (length predictions)))%Q.
Proof.
  intros Hne Hvalid.
  destruct (vote_loop_spec weights predictions tally_init eq_refl Hvalid)
    as (t & Hfold & Hkeys & Hvotes & Htot).
  unfold _weighted_voting. rewrite Hfold.
  assert (Hnd : NoDup (votes t).*1).
  { rewrite Hkeys. apply (bool_decide_unpack (NoDup level_names)).
    vm_compute. exact I. }
  assert (Hmass : forall l, l ∈ level_names ->
            exists v, dict_get (votes t) l = Some v
                      /\ (v == vote_mass weights l predictions)%Q).
  { intros l Hl. destruct (Hvotes l Hl) as (v0 & v & H0 & Hv & E).
    exists v. split; [done|]. rewrite E.
    assert (v0 = 0%Q) as ->; [|lra].
    unfold level_names in Hl.
    repeat (apply elem_of_cons in Hl as [->|Hl]);
      [| | |by apply elem_of_nil in Hl];
      vm_compute in H0; congruence. }
  destruct (votes t) as [|e0 d] eqn:Ev; [discriminate Hkeys|].
  cbn [py_max_key]. rewrite bool_decide_eq_false_2 by done.
  eexists. split; [reflexivity|].
  cbn [final_prediction vote_scores final_confidence].
  destruct (max_from_spec e0 d) as [Hin Hmax].
  set (m := max_from e0 d) in *.
  assert (Hm : m.1 ∈ level_names).
  { rewrite <- Hkeys. apply list_elem_of_fmap. by exists m. }
  assert (Hgm : dict_get (e0 :: d) m.1 = Some m.2).
  { apply dict_get_NoDup; [done|]. by destruct m. }
  split; [done|split; [done|split]].
  - intros l Hl.
    destruct (Hmass l Hl) as (v & Hv & Ev').
    destruct (Hmass _ Hm) as (vm & Hvm & Evm).
    assert (vm = m.2) as -> by congruence.
    rewrite <- Ev', <- Evm.
    apply dict_get_Some in Hv. rewrite Forall_forall in Hmax.
    exact (Hmax _ Hv).
  - rewrite Htot. simpl.
    apply Qdiv_comp; [lra | reflexivity].
Qed.

(** C8.  For a non-empty list of opinions, each predicting one of the three
    levels, [_weighted_voting] returns, for every level, the vote mass that
    is the sum of [weight * confidence] over the opinions for that level, a
    winning level whose vote mass no other level exceeds, and a confidence
    equal to the weighted confidence total divided by the number of
    opinions.  A source that the weight table does not list votes with weight
    0.1.  For the three opinions (A, danger, 0.9), (B, safe, 0.8),
    (C, warning, 0.7) with weights 0.4, 0.3, 0.3 the vote masses are
    danger 0.36, safe 0.24, warning 0.21 and the verdict is danger. *)
Theorem C8_weighted_voting :
  (forall (U : Unicode) predictions weights,
     predictions <> [] ->
     Forall (fun pred => prediction pred ∈ level_names) predictions ->
     exists e,
       _weighted_voting predictions weights = inr e
       /\ (forall l, l ∈ level_names ->
           exists v, dict_get (vote_scores e) l = Some v
                     /\ (v == vote_mass weights l predictions)%Q)
       /\ final_prediction e ∈ level_names
       /\ (forall l, l ∈ level_names ->
           (vote_mass weights l predictions
            <= vote_mass weights (final_prediction e) predictions)%Q)
       /\ (final_confidence e
           == weighted_confidence weights predictions
              / inject_Z (Z.of_nat (length predictions)))%Q)
  /\ (forall (U : Unicode) weights pred,
        dict_get weights (py_lower (default (u "unknown") (model pred))) = None ->
        prediction pred ∈ level_names ->
        exists e v,
          _weighted_voting [pred] weights = inr e
          /\ dict_get (vote_scores e) (prediction pred) = Some v
          /\ (v == 0.1 * confidence pred)%Q)
  /\ (exists e,
        _weighted_voting opinions_ABC weights_ABC = inr e
        /\ final_prediction e = u "danger"
        /\ Forall2 (fun kv kv' => kv.1 = kv'.1 /\ (kv.2 == kv'.2)%Q)
             (vote_scores e)
             [(u "safe", 0.24%Q); (u "warning", 0.21%Q); (u "danger", 0.36%Q)]).
Proof.
  split; [|split].
  - intros U predictions weights. apply weighted_voting_general.
  - intros U weights pred Hw Hl.
    destruct (weighted_voting_general [pred] weights) as (e & He & Hmass & _);
      [done | by apply Forall_singleton |].
    destruct (Hmass _ Hl) as (v & Hv & E).
    exists e, v. split; [done|split; [done|]].
    rewrite E. unfold vote_mass, weight_of. simpl.
    rewrite Hw, bool_decide_eq_true_2 by done. simpl. lra.
  - eexists. split; [vm_compute; reflexivity|]. split; [reflexivity|].
    repeat constructor.
Qed.

(** C8 at the three opinions A, B, C. *)
Lemma C8_witness :
  exists e,
    _weighted_voting opinions_ABC weights_ABC = inr e
    /\ (forall l, l ∈ level_names ->
        exists v, dict_get (vote_scores e) l = Some v
                  /\ (v == vote_mass weights_ABC l opinions_ABC)%Q)
    /\ final_prediction e ∈ level_names
    /\ (forall l, l ∈ level_names ->
        (vote_mass weights_ABC l opinions_ABC
         <= vote_mass weights_ABC (final_prediction e) opinions_ABC)%Q)
    /\ (final_confidence e
        == weighted_confidence weights_ABC opinions_ABC
           / inject_Z (Z.of_nat (length opinions_ABC)))%Q.
Proof.
  apply (proj1 C8_weighted_voting basic_unicode).
  - discriminate.
  - repeat constructor.
Defined.

End Claim_vote.

(** ** Concrete runs *)

(** C1 at the first detection of a fresh engine. *)
Lemma C1_witness :
  exists r,
    heap (detect_text_wrapped world_init text_scam (u "id-1") 0%Q).2
    !! (detect_text_wrapped world_init text_scam (u "id-1") 0%Q).1 = Some r
    /\ (0 <= score r)%Q /\ (score r <= 1)%Q
    /\ level r = level_of_score (score r) /\ thresholds_ok r.
Proof.
  apply (proj2 C1_score_bounds_and_thresholds). apply reachable_init.
Defined.

(** C3 on the code.  For a text in which no detector finds anything, the
    detection builds a SAFE result whose lists of reasons and of suggestions
    are both empty: no placeholder reason is supplied. *)
Lemma C3_empty_reasons_on_safe_text :
  let c := detect_text_wrapped world_init text_recipe (u "id-1") 0%Q in
  exists r,
    heap c.2 !! c.1 = Some r
    /\ level r = SAFE /\ reasons r = [] /\ suggestions r = [].
Proof. eexists. split; [vm_compute; reflexivity|]. repeat split. Qed.

(** C4 as stated fails.  The text consists of one urgency word: the urgency
    contribution is 0.05, not zero, yet the score is not the clamped sum of
    all five contributions (it is 0). *)
Lemma C4_counterexample :
  (0 < urgency_count text_deadline)%Z
  /\ ~ (_detect_urgency text_deadline == 0)%Q
  /\ ~ (score (_perform_detection _load_keywords text_deadline (u "id-1"))
        == Qmin (spec_sum _load_keywords text_deadline) 1)%Q
  /\ let c := detect_text_wrapped world_init text_deadline (u "id-1") 0%Q in
     exists r, heap c.2 !! c.1 = Some r /\ (score r == 0)%Q.
Proof.
  split; [|split; [|split]].
  - vm_compute. reflexivity.
  - intros H. vm_compute in H. discriminate H.
  - intros H. vm_compute in H. discriminate H.
  - eexists. split; [vm_compute; reflexivity|]. reflexivity.
Qed.

(** C5 on the code.  On the text of the scenario no category of the
    keyword table reaches two matches: of the table only "保证收益" occurs in
    the text, so financial_fraud fires with one match, and the result has
    score 0.15 and level SAFE, not DANGER with a score of at least 0.7. *)
Theorem C5_scam_text_is_scored_safe :
  let text := _preprocess_text text_scam in
  let r := _perform_detection _load_keywords text (u "id-1") in
  Forall (fun item => (_count_keyword_matches text item.2 < 2)%Z)
    _load_keywords
  /\ dict_get _load_keywords (u "financial_fraud")
     ≫= (fun kws => Some (_count_keyword_matches text kws))
     = Some 1%Z
  /\ contains text (u "月入万元") = false
  /\ contains text (u "无风险投资") = false
  /\ categories r = [u "financial_fraud"]
  /\ keywords r = [u "保证收益"]
  /\ reasons r = [u "发现1个financial_fraud相关关键词"]
  /\ level r = SAFE
  /\ level r <> DANGER
  /\ (score r == 0.15)%Q
  /\ (score r < 0.7)%Q
  /\ (let c := detect_text_wrapped world_init text_scam (u "id-1") 0%Q in
      heap c.2 !! c.1 = Some r).
Proof.
  split.
  { apply (bool_decide_unpack _). vm_compute. exact I. }
  repeat split; try (vm_compute; reflexivity).
  vm_compute. discriminate.
Qed.

(** C6 at 1001 entries under the keys "0", "1", ..., "1000": the entries
    "500" to "1000" remain. *)
Lemma C6_witness :
  cache_puts (numbered_entries 1001) [] = drop 500 (numbered_entries 1001).
Proof.
  apply (proj1 (proj2 (proj2 (@C6_cache_bound basic_unicode)))).
  - apply (bool_decide_unpack (NoDup (numbered_entries 1001).*1)).
    vm_compute. exact I.
  - vm_compute. reflexivity.
Defined.

(** C7 as stated fails.  A text with a lone surrogate has no UTF-8 encoding:
    the second detection of it is not served from the cache (nothing is
    cached) but builds another fallback result. *)
Lemma C7_counterexample :
  let w1 := (detect_text world_init text_surrogate (u "id-1") 0%Q).2 in
  let c1 := detect_text_wrapped world_init text_surrogate (u "id-1") 0%Q in
  let c2 := detect_text_wrapped w1 text_surrogate (u "id-2") 0%Q in
  cache_hit w1 text_surrogate = false
  /\ cache (self c2.2) = []
  /\ c2.1 <> c1.1.
Proof.
  split; [reflexivity|]. split; [reflexivity|].
  vm_compute. discriminate.
Qed.

(** C7, as amended, at the text of the scenario. *)
Lemma C7_witness :
  let w1 := (detect_text world_init text_scam (u "id-1") 0%Q).2 in
  let c1 := detect_text_wrapped world_init text_scam (u "id-1") 0%Q in
  let c2 := detect_text_wrapped w1 text_scam (u "id-2") 0%Q in
  encodable text_scam
  /\ (detect_text w1 text_scam (u "id-2") 0%Q).2 = c2.2
  /\ exists r1 r2,
    heap w1 !! c1.1 = Some r1 /\ heap c2.2 !! c2.1 = Some r2
    /\ score r1 = score r2 /\ level r1 = level r2
    /\ reasons r1 = reasons r2 /\ categories r1 = categories r2
    /\ detection_id r1 = u "id-1" /\ detection_id r2 = u "id-2"
    /\ (encodable text_scam ->
        cache_hit w1 text_scam = true /\ c2.1 = c1.1 /\ self c2.2 = self w1)
    /\ (~ encodable text_scam ->
        cache_hit w1 text_scam = false /\ c2.1 <> c1.1
        /\ self c2.2 = self world_init
        /\ r1 = fallback_result (u "id-1") /\ r2 = fallback_result (u "id-2")).
Proof.
  split; [vm_compute; eauto|].
  apply C7_detect_twice. apply reachable_init.
Defined.

(** C9 as stated fails.  "A" and "a" have the same normalized form but
    different cache keys: after a detection of "A", a detection of "a" misses
    the cache, builds a second result and adds a second entry. *)
Lemma C9_counterexample :
  _preprocess_text (u "A") = _preprocess_text (u "a")
  /\ _generate_cache_key (u "A") <> _generate_cache_key (u "a")
  /\ let w1 := (detect_text world_init (u "A") (u "id-1") 0%Q).2 in
     let c1 := detect_text_wrapped world_init (u "A") (u "id-1") 0%Q in
     let c2 := detect_text_wrapped w1 (u "a") (u "id-2") 0%Q in
     cache_hit w1 (u "a") = false
     /\ c2.1 <> c1.1
     /\ length (cache (self c2.2)) = 2%nat.
Proof.
  split; [reflexivity|]. split; [vm_compute; discriminate|].
  split; [vm_compute; reflexivity|]. split; [vm_compute; discriminate|].
  vm_compute. reflexivity.
Qed.

(** C9, as amended, at two different texts with one key, the second of
    which is answered from the entry of the first, and at "A" and "a",
    which have different keys and get an entry each. *)
Lemma C9_witness :
  (text_collision_1 <> text_collision_2
   /\ let w1 := (detect_text world_init text_collision_1 (u "id-1") 0%Q).2 in
      let c1 :=
        detect_text_wrapped world_init text_collision_1 (u "id-1") 0%Q in
      let c2 := detect_text_wrapped w1 text_collision_2 (u "id-2") 0%Q in
      cache_hit w1 text_collision_2 = true
      /\ c2.1 = c1.1
      /\ self c2.2 = self w1
      /\ exists r1, heap w1 !! c1.1 = Some r1
                    /\ heap c2.2 !! c2.1 = Some (set_detection_id (u "id-2") r1))
  /\ (let w1 := (detect_text world_init (u "A") (u "id-1") 0%Q).2 in
      let c1 := detect_text_wrapped world_init (u "A") (u "id-1") 0%Q in
      let c2 := detect_text_wrapped w1 (u "a") (u "id-2") 0%Q in
      cache_hit w1 (u "a") = false
      /\ c2.1 <> c1.1
      /\ (forall key2, _generate_cache_key (u "a") = inr key2 ->
          dict_get (cache (self c2.2)) key2 = Some c2.1)).
Proof.
  split; [split|].
  - vm_compute. discriminate.
  - apply (proj1 (proj2 (@C9_cache_is_keyed_by_the_raw_text basic_unicode))
             world_init text_collision_1 text_collision_2
             (u "faad49866e9498fc1719f5289e7a0269")).
    + apply reachable_init.
    + vm_compute. reflexivity.
    + vm_compute. reflexivity.
  - apply (proj2 (proj2 (@C9_cache_is_keyed_by_the_raw_text basic_unicode))
             world_init (u "A") (u "a")).
    + apply reachable_init.
    + vm_compute. discriminate.
    + reflexivity.
Defined.

(** C10 at a second detection of the text of the scenario. *)
Lemma C10_witness :
  let w1 := (detect_text world_init text_scam (u "id-1") 0.012%Q).2 in
  cache_hit w1 text_scam = true
  /\ statistics (self (detect_text w1 text_scam (u "id-2") 0.003%Q).2)
     = statistics (self w1).
Proof.
  assert (H : cache_hit (detect_text world_init text_scam (u "id-1") 0.012%Q).2
                text_scam = true) by (vm_compute; reflexivity).
  split; [exact H|].
  apply (proj1 C10_cache_hit_keeps_statistics). exact H.
Defined.

(* ===================================================================== *)
(** * Further properties of the code *)
(* ===================================================================== *)

(** ** The detectors and the keyword count *)

Lemma fold_add_ones {A} (l : list A) (z : Z) :
  fold_left Z.add (map (fun _ => 1%Z) l) z = (z + Z.of_nat (length l))%Z.
Proof.
  revert z. induction l as [|a l IH]; intros z; simpl; [lia|].
  rewrite IH. lia.
Qed.

Lemma filter_length_le {A} (f : A -> bool) (l : list A) :
  (length (List.filter f l) <= length l)%nat.
Proof. induction l as [|a l IH]; simpl; [lia|]. destruct (f a); simpl; lia. Qed.

Section Detector_bounds.
Context {U : Unicode}.

Lemma urgency_count_length text :
  urgency_count text
  = Z.of_nat (length (List.filter (fun word => contains text word) urgency_words)).
Proof. unfold urgency_count. by rewrite fold_add_ones. Qed.

(** X1.  Each of the four pattern detectors returns a value between 0 and
    its cap: 0.3, 0.2, 0.2 and 0.3; the urgency count is at most 8. *)
Theorem X1_detector_caps text :
  (0 <= _detect_language_patterns text <= 0.3)%Q
  /\ (0 <= _detect_contact_info text <= 0.2)%Q
  /\ (0 <= _detect_urgency text <= 0.2)%Q
  /\ (0 <= _detect_suspicious_numbers text <= 0.3)%Q
  /\ (0 <= urgency_count text <= 8)%Z.
Proof.
  assert (Hu : (0 <= urgency_count text <= 8)%Z).
  { rewrite urgency_count_length.
    pose proof (filter_length_le (fun word => contains text word) urgency_words).
    change (length urgency_words) with 8%nat in H. lia. }
  split; [|split; [|split; [|split]]]; [| | | |exact Hu].
  - unfold _detect_language_patterns. split; [|apply Q.le_min_r].
    apply Q.min_glb; [|lra].
    destruct (re_search (Alt (Alt _ _) _) text).
    + apply (bump_nonneg true); [lra|].
      apply fold_left_nonneg; [intros; apply bump_nonneg; lra|].
      destruct (re_search _ text); lra.
    + apply fold_left_nonneg; [intros; apply bump_nonneg; lra|].
      destruct (re_search _ text); lra.
  - unfold _detect_contact_info. split; [|apply Q.le_min_r].
    apply Q.min_glb; [|lra].
    apply fold_left_nonneg; [intros; apply bump_nonneg; lra | lra].
  - unfold _detect_urgency. split; [|apply Q.le_min_r].
    apply Q.min_glb; [|lra].
    assert (0 <= inject_Z (urgency_count text))%Q.
    { change 0%Q with (inject_Z 0). rewrite <- Zle_Qle. lia. }
    nra.
  - split; [apply _detect_suspicious_numbers_nonneg|].
    unfold _detect_suspicious_numbers. apply Q.le_min_r.
Qed.

End Detector_bounds.

(** ** Substrings *)

Lemma startswith_nil hay : startswith hay [] = true.
Proof. by destruct hay. Qed.

Lemma startswith_app hay needle post :
  startswith hay needle = true -> startswith (hay ++ post) needle = true.
Proof.
  revert needle. induction hay as [|b hay IH]; intros [|a needle];
    try (intros _; apply startswith_nil); try discriminate.
  simpl. intros [Hab Hrest]%andb_true_iff. rewrite Hab. simpl. by apply IH.
Qed.

Lemma contains_app_r hay needle post :
  contains hay needle = true -> contains (hay ++ post) needle = true.
Proof.
  induction hay as [|b hay IH]; simpl.
  - rewrite orb_false_r. intros H. destruct needle; [|done].
    destruct post; reflexivity.
  - intros [H|H]%orb_true_iff; apply orb_true_iff.
    + left. by apply (startswith_app (b :: hay)).
    + right. by apply IH.
Qed.

Lemma contains_app_l pre hay needle :
  contains hay needle = true -> contains (pre ++ hay) needle = true.
Proof.
  intros H. induction pre as [|b pre IH]; simpl; [done|].
  apply orb_true_iff. by right.
Qed.

(** What occurs in a text is made of characters of the text. *)
Lemma startswith_elem hay needle :
  startswith hay needle = true -> forall x, x ∈ needle -> x ∈ hay.
Proof.
  revert needle. induction hay as [|b hay IH]; intros [|a needle];
    try discriminate.
  - intros _ x Hx. by apply elem_of_nil in Hx.
  - intros _ x Hx. by apply elem_of_nil in Hx.
  - simpl. intros [Hab%N.eqb_eq Hrest]%andb_true_iff x [->|Hx]%elem_of_cons.
    + subst. left.
    + right. by apply (IH needle).
Qed.

Lemma contains_elem hay needle :
  contains hay needle = true -> forall x, x ∈ needle -> x ∈ hay.
Proof.
  induction hay as [|b hay IH].
  - cbn [contains]. rewrite orb_false_r. apply startswith_elem.
  - cbn [contains]. intros [H|H]%orb_true_iff x Hx.
    + by apply (startswith_elem _ _ H).
    + right. by apply IH.
Qed.

Lemma count_keyword_matches_length text keywords :
  _count_keyword_matches text keywords
  = Z.of_nat (length (List.filter (fun kw => contains text kw) keywords)).
Proof.
  unfold _count_keyword_matches.
  assert (forall z,
            fold_left
              (fun count keyword =>
                 if contains text keyword then (count + 1)%Z else count)
              keywords z
            = (z + Z.of_nat
                     (length (List.filter (fun kw => contains text kw) keywords)))%Z)
    as H.
  { induction keywords as [|kw keywords IH]; intros z; simpl; [lia|].
    rewrite IH. destruct (contains text kw); simpl; lia. }
  rewrite H. lia.
Qed.

Lemma filter_length_mono {A} (f g : A -> bool) (l : list A) :
  (forall a, f a = true -> g a = true) ->
  (length (List.filter f l) <= length (List.filter g l))%nat.
Proof.
  intros Hfg. induction l as [|a l IH]; simpl; [lia|].
  destruct (f a) eqn:Ef.
  - rewrite (Hfg _ Ef). simpl. lia.
  - destruct (g a); simpl; lia.
Qed.

(** X2.  [_count_keyword_matches] is the number of keywords of the list
    that occur in the text: each keyword counts once, however often it
    occurs; the count is at most the length of the list, and it does not
    decrease when text is added before and after. *)
Theorem X2_keyword_count text keywords :
  _count_keyword_matches text keywords
  = Z.of_nat (length (List.filter (fun kw => contains text kw) keywords))
  /\ (0 <= _count_keyword_matches text keywords <= Z.of_nat (length keywords))%Z
  /\ (forall pre post,
        (_count_keyword_matches text keywords
         <= _count_keyword_matches (pre ++ text ++ post) keywords)%Z).
Proof.
  split; [apply count_keyword_matches_length|split].
  - rewrite count_keyword_matches_length.
    pose proof (filter_length_le (fun kw => contains text kw) keywords). lia.
  - intros pre post. rewrite !count_keyword_matches_length.
    apply inj_le, filter_length_mono.
    intros kw Hkw. by apply contains_app_l, contains_app_r.
Qed.

(** ** What [_perform_detection] reports *)

Ltac destruct_gates_eqn :=
  repeat match goal with
         | |- context [if ?b then _ else _] =>
             lazymatch b with
             | Qgt_tenth _ => destruct b eqn:?
             | andb _ _ => destruct b eqn:?
             | Qpos_bool _ => destruct b eqn:?
             end
         end.

Section Reports.
Context {U : Unicode}.

Lemma keyword_step_lists text l item :
  categories_ (keyword_step text l item)
  = categories_ l ++ (if category_fires text item then [item.1] else [])
  /\ keywords_found (keyword_step text l item)
     = keywords_found l
       ++ (if category_fires text item
           then take 5 (matched_keywords text item) else [])
  /\ length (reasons_ (keyword_step text l item))
     = (length (reasons_ l) + if category_fires text item then 1 else 0)%nat.
Proof.
  unfold keyword_step, category_fires, matched_keywords.
  destruct item as [c kws]. simpl.
  destruct (0 <? _)%Z; simpl.
  - rewrite length_app. simpl. done.
  - rewrite !app_nil_r. split; [done|split; [done|lia]].
Qed.

(** The loop over the keyword table records the categories that fire, in
    the order of the table, with up to five matched keywords each and one
    reason each. *)
Lemma keyword_loop_lists text kdb l :
  categories_ (fold_left (keyword_step text) kdb l)
  = categories_ l ++ (List.filter (category_fires text) kdb).*1
  /\ keywords_found (fold_left (keyword_step text) kdb l)
     = keywords_found l
       ++ flat_map (fun item => take 5 (matched_keywords text item))
            (List.filter (category_fires text) kdb)
  /\ length (reasons_ (fold_left (keyword_step text) kdb l))
     = (length (reasons_ l)
        + length (List.filter (category_fires text) kdb))%nat.
Proof.
  revert l. induction kdb as [|item kdb IH]; intros l.
  - simpl. rewrite !app_nil_r. split; [done|split; [done|lia]].
  - cbn [fold_left List.filter].
    destruct (IH (keyword_step text l item)) as (Hc & Hk & Hr).
    destruct (keyword_step_lists text l item) as (Hc1 & Hk1 & Hr1).
    rewrite Hc, Hk, Hr, Hc1, Hk1, Hr1.
    destruct (category_fires text item); simpl.
    + rewrite <- !app_assoc. simpl. split; [done|split; [done|lia]].
    + rewrite !app_nil_r. split; [done|split; [done|lia]].
Qed.

Lemma perform_detection_lists kdb text id :
  categories (_perform_detection kdb text id)
  = categories_ (fold_left (keyword_step text) kdb locals_init)
  /\ keywords (_perform_detection kdb text id)
     = keywords_found (fold_left (keyword_step text) kdb locals_init).
Proof. unfold _perform_detection. destruct_gates; split; reflexivity. Qed.

(** X3.  The categories of a result are the categories of the table with at
    least one keyword in the text, in the order of the table; its keywords
    are, for each of these categories in turn, the first five keywords of
    the category that occur in the text.  So every reported keyword is a
    keyword of the table that occurs in the text, and there are at most five
    for each reported category. *)
Theorem X3_reported_categories_and_keywords kdb text id :
  let r := _perform_detection kdb text id in
  categories r = (List.filter (category_fires text) kdb).*1
  /\ keywords r
     = flat_map (fun item => take 5 (matched_keywords text item))
         (List.filter (category_fires text) kdb)
  /\ Forall (fun kw => contains text kw = true
                       /\ exists item, item ∈ kdb /\ kw ∈ item.2)
       (keywords r)
  /\ (length (keywords r) <= 5 * length (categories r))%nat.
Proof.
  intros r. subst r.
  destruct (perform_detection_lists kdb text id) as [-> ->].
  destruct (keyword_loop_lists text kdb locals_init) as (-> & -> & _).
  simpl. split; [done|split; [done|split]].
  - apply Forall_forall. intros kw Hkw.
    apply list_elem_of_In, in_flat_map in Hkw as (item & Hitem & Hin).
    apply filter_In in Hitem as [Hitem _].
    apply list_elem_of_In, (subseteq_take 5), list_elem_of_In in Hin.
    unfold matched_keywords in Hin. apply filter_In in Hin as [Hin Hc].
    split; [done|]. exists item. split; by apply list_elem_of_In.
  - rewrite length_fmap.
    induction (List.filter (category_fires text) kdb) as [|item l IH]; simpl; [lia|].
    rewrite length_app, length_take. lia.
Qed.

End Reports.

Section Reasons.
Context {U : Unicode}.

Lemma category_contribution_fires text item :
  (category_fires text item = true -> (0 < category_contribution text item)%Q)
  /\ (category_fires text item = false -> category_contribution text item = 0%Q).
Proof.
  unfold category_fires, category_contribution.
  destruct (0 <? _)%Z eqn:E; split; try done.
  intros _. apply Z.ltb_lt in E.
  assert (inject_Z 1 <= inject_Z (_count_keyword_matches text item.2))%Q
    by (rewrite <- Zle_Qle; lia).
  change (inject_Z 1) with 1%Q in *.
  apply Q.min_glb_lt; lra.
Qed.

Lemma keyword_total_zero text kdb :
  (keyword_total text kdb == 0)%Q <-> List.filter (category_fires text) kdb = [].
Proof.
  induction kdb as [|item kdb IH]; simpl; [done|].
  pose proof (keyword_total_nonneg text kdb) as H0.
  destruct (category_contribution_fires text item) as [Ht Hf].
  destruct (category_fires text item) eqn:E.
  - specialize (Ht eq_refl). split; [intros H; lra | done].
  - rewrite (Hf eq_refl), <- IH. split; intros H; lra.
Qed.

(** After the loop over the keyword table: no reason yet exactly when the
    running total is still zero. *)
Lemma keyword_loop_reasons text kdb :
  let l := fold_left (keyword_step text) kdb locals_init in
  (0 <= risk_score l)%Q
  /\ (length (reasons_ l) = 0%nat <-> (risk_score l == 0)%Q).
Proof.
  intros l. subst l.
  pose proof (keyword_loop_score text kdb locals_init) as Hs.
  destruct (keyword_loop_lists text kdb locals_init) as (_ & _ & Hr).
  simpl in Hs, Hr.
  pose proof (keyword_total_nonneg text kdb) as H0.
  pose proof (keyword_total_zero text kdb) as Hz.
  split; [lra|].
  rewrite Hr. split.
  - intros Hl. apply nil_length_inv in Hl. apply Hz in Hl. lra.
  - intros Hq. assert (keyword_total text kdb == 0)%Q as Hq' by lra.
    apply Hz in Hq'. by rewrite Hq'.
Qed.

Lemma Qmin_one_zero x : (0 <= x)%Q -> (Qmin x 1.0 == 0)%Q <-> (x == 0)%Q.
Proof.
  intros Hx.
  destruct (Q.min_spec x 1.0) as [[Hlt ->]|[Hle ->]]; [done|].
  split; intros H; exfalso; lra.
Qed.

Ltac gate_facts :=
  repeat match goal with
         | H : Qgt_tenth _ = true |- _ => apply Qgt_tenth_true in H
         | H : Qpos_bool _ = true |- _ => apply Qpos_bool_true in H
         | H : _ && _ = true |- _ => apply andb_true_iff in H as [? ?]
         end.

Lemma keyword_step_suggestions text l item :
  suggestions_ (keyword_step text l item)
  = suggestions_ l
    ++ (if category_fires text item then category_suggestions item.1 else []).
Proof.
  unfold keyword_step, category_fires. destruct item as [c kws]. simpl.
  destruct (0 <? _)%Z; simpl; [done | by rewrite app_nil_r].
Qed.

Lemma keyword_loop_suggestions text kdb l :
  suggestions_ (fold_left (keyword_step text) kdb l)
  = suggestions_ l
    ++ flat_map (fun item => category_suggestions item.1)
         (List.filter (category_fires text) kdb).
Proof.
  revert l. induction kdb as [|item kdb IH]; intros l.
  - simpl. by rewrite app_nil_r.
  - cbn [fold_left List.filter]. rewrite IH, keyword_step_suggestions.
    destruct (category_fires text item); cbn [flat_map].
    + by rewrite <- app_assoc.
    + by rewrite app_nil_r.
Qed.

(** The suggestions of a result, piece by piece. *)
Lemma perform_detection_suggestions kdb text id :
  let l := fold_left (keyword_step text) kdb locals_init in
  let r := _perform_detection kdb text id in
  suggestions r
  = suggestions_ l
    ++ (if Qpos_bool (_detect_contact_info text)
           && Qpos_bool
                (risk_score l
                 + gate (Qgt_tenth (_detect_language_patterns text))
                     (_detect_language_patterns text))
        then [u "不要轻易添加陌生人联系方式"] else [])
    ++ (if Qgt_tenth (_detect_urgency text)
        then [u "冷静思考，不要被紧急性语言误导"] else [])
    ++ (if bool_decide (level r <> SAFE)
        then [ u "如有疑问，请咨询家人或专业人士";
               u "遇到要求转账的情况请立即警惕" ]
        else []).
Proof.
  intros l r. subst r. unfold _perform_detection, gate. fold l. clearbody l.
  destruct (Qgt_tenth (_detect_language_patterns text)).
  - destruct_gates; cbn [suggestions level];
      case_bool_decide; rewrite <- ?app_assoc, ?app_nil_r; reflexivity.
  - assert (Qpos_bool (risk_score l + 0) = Qpos_bool (risk_score l)) as ->.
    { apply Qpos_bool_proper. lra. }
    destruct_gates; cbn [suggestions level];
      case_bool_decide; rewrite <- ?app_assoc, ?app_nil_r; reflexivity.
Qed.

(** The reasons of a result, piece by piece. *)
Lemma perform_detection_reasons kdb text id :
  let l := fold_left (keyword_step text) kdb locals_init in
  reasons (_perform_detection kdb text id)
  = reasons_ l
    ++ (if Qgt_tenth (_detect_language_patterns text)
        then [u "检测到可疑的语言模式"] else [])
    ++ (if Qpos_bool (_detect_contact_info text)
           && Qpos_bool
                (risk_score l
                 + gate (Qgt_tenth (_detect_language_patterns text))
                     (_detect_language_patterns text))
        then [u "含有联系方式且存在其他风险因素"] else [])
    ++ (if Qgt_tenth (_detect_urgency text)
        then [u "内容使用大量紧急性语言，可能是诱导手段"] else [])
    ++ (if Qpos_bool (_detect_suspicious_numbers text)
        then [u "检测到可疑的数字承诺"] else []).
Proof.
  intros l. unfold _perform_detection, gate. fold l. clearbody l.
  destruct (Qgt_tenth (_detect_language_patterns text)).
  - destruct_gates; cbn [reasons];
      rewrite <- ?app_assoc, ?app_nil_r; reflexivity.
  - assert (Qpos_bool (risk_score l + 0) = Qpos_bool (risk_score l)) as ->.
    { apply Qpos_bool_proper. lra. }
    destruct_gates; cbn [reasons];
      rewrite <- ?app_assoc, ?app_nil_r; reflexivity.
Qed.

Lemma reasons_nil_iff kdb text id :
  reasons (_perform_detection kdb text id) = []
  <-> (score (_perform_detection kdb text id) == 0)%Q.
Proof.
  destruct (keyword_loop_reasons text kdb) as [H0 Hr].
  pose proof (_detect_suspicious_numbers_nonneg text) as Hn.
  unfold _perform_detection.
  set (l := fold_left (keyword_step text) kdb locals_init) in *.
  clearbody l.
  destruct_gates_eqn; gate_facts; cbn [reasons score];
    (rewrite Qmin_one_zero by lra);
    (split; intros Hgoal;
     [ apply (f_equal length) in Hgoal; rewrite ?length_app in Hgoal;
       cbn [length] in Hgoal;
       first [ lia
             | assert (length (reasons_ l) = 0%nat) as Hl by lia;
               apply Hr in Hl; lra ]
     | first [ exfalso; lra
             | apply nil_length_inv, Hr; lra ] ]).
Qed.

(** X4.  The list of reasons of a result is empty exactly when its score is
    zero: every addition to the score is positive and comes with a reason.
    A result without reasons is SAFE and has no suggestion, category or
    keyword either; a result that is not SAFE has at least one reason, and
    its suggestions end with the two general ones. *)
Theorem X4_reasons_and_score kdb text id :
  let r := _perform_detection kdb text id in
  (reasons r = [] <-> (score r == 0)%Q)
  /\ (reasons r = [] ->
      level r = SAFE /\ suggestions r = [] /\ categories r = []
      /\ keywords r = [])
  /\ (level r <> SAFE ->
      reasons r <> []
      /\ exists s, suggestions r
                   = s ++ [ u "如有疑问，请咨询家人或专业人士";
                            u "遇到要求转账的情况请立即警惕" ]).
Proof.
  intros r.
  pose proof (reasons_nil_iff kdb text id) as Hiff. fold r in Hiff.
  destruct (perform_detection_ok kdb text id) as (_ & _ & Hlvl). fold r in Hlvl.
  apply level_of_score_thresholds in Hlvl as (_ & _ & Hsafe).
  assert (Hnil : reasons r = [] -> level r = SAFE).
  { intros Hr%Hiff. apply Hsafe. lra. }
  split; [done|split].
  - intros Hr. split; [by apply Hnil|].
    pose proof (perform_detection_suggestions kdb text id) as Hs.
    cbv zeta in Hs. fold r in Hs.
    destruct (perform_detection_lists kdb text id) as [Hc Hk].
    fold r in Hc, Hk.
    destruct (keyword_loop_lists text kdb locals_init) as (Hc' & Hk' & Hr').
    pose proof (keyword_loop_suggestions text kdb locals_init) as Hs'.
    cbn [categories_ keywords_found reasons_ suggestions_ locals_init app length]
      in Hc', Hk', Hr', Hs'.
    pose proof (perform_detection_reasons kdb text id) as Hrs.
    cbv zeta in Hrs. fold r in Hrs. rewrite Hr in Hrs. symmetry in Hrs.
    apply app_eq_nil in Hrs as [Hl Hrs].
    apply app_eq_nil in Hrs as [_ Hrs].
    apply app_eq_nil in Hrs as [Hcon Hrs].
    apply app_eq_nil in Hrs as [Hurg _].
    rewrite Hl in Hr'. simpl in Hr'. symmetry in Hr'.
    apply nil_length_inv in Hr'. rewrite Hr' in *.
    rewrite Hc, Hk, Hc', Hk'. split; [|done].
    rewrite Hs, Hs'. rewrite (bool_decide_eq_false_2 (level r <> SAFE)).
    + destruct (_ && _); [discriminate|].
      destruct (Qgt_tenth (_detect_urgency text)); [discriminate|]. done.
    + intros Hne. by apply Hne, Hnil.
  - intros Hl. split; [intros Hr; by apply Hl, Hnil|].
    pose proof (perform_detection_suggestions kdb text id) as Hs.
    cbv zeta in Hs. fold r in Hs.
    rewrite bool_decide_eq_true_2 in Hs by done.
    rewrite Hs, !app_assoc. eauto.
Qed.

End Reasons.

(** ** The matcher *)

Lemma star_ends_nonempty step fuel t : star_ends step fuel t <> [].
Proof. destruct fuel; simpl; [done|]. intros H. by apply app_eq_nil in H as [_ ?]. Qed.

(** What a match leaves over is no longer than the text and made of its
    characters. *)
Lemma star_ends_sub step fuel t e :
  (forall t e, e ∈ step t -> forall x, x ∈ e -> x ∈ t) ->
  e ∈ star_ends step fuel t ->
  (length e <= length t)%nat /\ forall x, x ∈ e -> x ∈ t.
Proof.
  intros Hstep. revert t e. induction fuel as [|fuel IH]; intros t e; simpl.
  - intros ->%list_elem_of_singleton. done.
  - intros [He| ->%list_elem_of_singleton]%elem_of_app; [|done].
    apply list_elem_of_In, in_flat_map in He as (t' & Ht' & He).
    destruct (Nat.ltb_spec (length t') (length t)) as [Hlt|]; [|done].
    apply list_elem_of_In in He, Ht'.
    destruct (IH _ _ He) as [Hlen Hsub]. split; [lia|].
    intros x Hx. apply (Hstep _ _ Ht'), Hsub, Hx.
Qed.

Lemma ends_elem r t e : e ∈ ends r t -> forall x, x ∈ e -> x ∈ t.
Proof.
  revert t e. induction r as [|p|r1 IH1 r2 IH2|r1 IH1 r2 IH2|r IH];
    intros t e; simpl.
  - by intros ->%list_elem_of_singleton.
  - destruct t as [|c t]; [by intros ?%elem_of_nil|].
    destruct (p c); [|by intros ?%elem_of_nil].
    intros ->%list_elem_of_singleton x Hx. by right.
  - intros He%list_elem_of_In. apply in_flat_map in He as (t' & Ht' & He).
    apply list_elem_of_In in He, Ht'.
    intros x Hx. apply (IH1 _ _ Ht'), (IH2 _ _ He), Hx.
  - intros [He|He]%elem_of_app; eauto.
  - intros He. by apply (star_ends_sub _ _ _ _ IH) in He as [_ ?].
Qed.

(** A pattern that requires a character does not match where it is
    absent. *)
Lemma requires_no_match c r t : requires c r -> c ∉ t -> ends r t = [].
Proof.
  revert t. induction r as [|p|r1 IH1 r2 IH2|r1 IH1 r2 IH2|r IH];
    intros t; simpl; try done.
  - intros Hp Hc. destruct t as [|x t]; [done|].
    destruct (p x) eqn:E; [|done]. apply Hp in E. subst x.
    exfalso. apply Hc. left.
  - intros [H1|H2] Hc.
    + by rewrite IH1.
    + assert (forall l, (forall e, e ∈ l -> c ∉ e) -> flat_map (ends r2) l = [])
        as Hflat.
      { induction l as [|e l IHl]; intros Hl; simpl; [done|].
        rewrite IH2, IHl; [done| |done|].
        - intros e' He'. apply Hl. by right.
        - apply Hl. left. }
      apply Hflat. intros e He Hce. by apply Hc, (ends_elem _ _ _ He).
  - intros [H1 H2] Hc. by rewrite IH1, IH2.
Qed.

Lemma re_search_requires c r t :
  requires c r -> c ∉ t -> re_search r t = false.
Proof.
  intros Hr. induction t as [|x t IH]; intros Hc; simpl.
  - unfold matches_at. by rewrite (requires_no_match c).
  - unfold matches_at. rewrite (requires_no_match c) by done. simpl.
    apply IH. intros Hin. apply Hc. by right.
Qed.

Section Sub.
Context {U : Unicode}.

(** Deleting the characters of a class is filtering. *)
Lemma re_sub_cls p fuel t :
  (length t <= fuel)%nat ->
  re_sub fuel (Cls p) [] t = List.filter (fun c => negb (p c)) t.
Proof.
  revert t. induction fuel as [|fuel IH]; intros t Hlen.
  - destruct t; [done|simpl in Hlen; lia].
  - destruct t as [|c t]; [done|]. simpl in Hlen.
    cbn [re_sub ends List.filter]. cbv beta. destruct (p c); cbn [head negb].
    + rewrite (proj2 (Nat.ltb_lt _ _)) by (simpl; lia).
      rewrite app_nil_l. apply IH. lia.
    + f_equal. apply IH. lia.
Qed.

Lemma re_sub_length fuel r repl t :
  (length repl <= 1)%nat ->
  (length (re_sub fuel r repl t) <= length t)%nat.
Proof.
  intros Hrepl. revert t. induction fuel as [|fuel IH]; intros t; [done|].
  destruct t as [|c t]; [done|]. cbn [re_sub].
  destruct (head (ends r (c :: t))) as [rest|].
  - destruct (Nat.ltb_spec (length rest) (length (c :: t))) as [Hlt|Hge].
    + rewrite length_app. specialize (IH rest). lia.
    + simpl. specialize (IH t). lia.
  - simpl. specialize (IH t). lia.
Qed.

Lemma re_sub_cons fuel r repl c t :
  re_sub (S fuel) r repl (c :: t)
  = match head (ends r (c :: t)) with
    | Some rest =>
        if (length rest <? length (c :: t))%nat
        then repl ++ re_sub fuel r repl rest
        else c :: re_sub fuel r repl t
    | None => c :: re_sub fuel r repl t
    end.
Proof. reflexivity. Qed.

Lemma ends_plus_space c t :
  ends (Plus re_s) (c :: t)
  = if py_isspace c then star_ends (ends re_s) (length t) t else [].
Proof.
  unfold Plus, re_s. cbn [ends]. destruct (py_isspace c); cbn [flat_map].
  - by rewrite app_nil_r.
  - done.
Qed.

(** Collapsing the runs of white space leaves no white space but the
    space. *)
Lemma re_sub_spaces fuel t :
  (length t <= fuel)%nat ->
  Forall (fun c => py_isspace c = true -> c = 32%N)
    (re_sub fuel (Plus re_s) (u " ") t).
Proof.
  revert t. induction fuel as [|fuel IH]; intros t Hlen.
  { destruct t; [constructor|simpl in Hlen; lia]. }
  destruct t as [|c t]; [constructor|]. cbn [length] in Hlen.
  rewrite re_sub_cons, ends_plus_space.
  destruct (py_isspace c) eqn:Ec.
  - destruct (star_ends (ends re_s) (length t) t) as [|rest l] eqn:Es.
    { by apply star_ends_nonempty in Es. }
    cbn [head].
    assert (rest ∈ star_ends (ends re_s) (length t) t) as Hin
      by (rewrite Es; left).
    apply star_ends_sub in Hin as [Hle _]; [|apply ends_elem].
    destruct (Nat.ltb_spec (length rest) (length (c :: t))) as [_|Hge];
      [|cbn [length] in Hge; lia].
    apply Forall_app. split.
    + apply Forall_singleton. done.
    + apply IH; lia.
  - cbn [head]. apply Forall_cons. split; [congruence|].
    apply IH; lia.
Qed.

Lemma lstrip_Forall (P : N -> Prop) t : Forall P t -> Forall P (lstrip t).
Proof.
  induction 1 as [|c t Hc Ht IH]; simpl; [constructor|].
  destruct (py_isspace c); [done | by constructor].
Qed.

Lemma lstrip_length t : (length (lstrip t) <= length t)%nat.
Proof.
  induction t as [|c t IH]; simpl; [done|].
  destruct (py_isspace c); simpl; lia.
Qed.

Lemma strip_Forall (P : N -> Prop) t : Forall P t -> Forall P (strip t).
Proof.
  intros H. unfold strip.
  by apply List.Forall_rev, lstrip_Forall, List.Forall_rev, lstrip_Forall.
Qed.

Lemma strip_length t : (length (strip t) <= length t)%nat.
Proof.
  unfold strip. rewrite List.length_rev.
  etrans; [apply lstrip_length|]. rewrite List.length_rev. apply lstrip_length.
Qed.

End Sub.

Section Preprocess.
Context {U : Unicode}.

Lemma filter_Forall_both (f : N -> bool) (P : N -> Prop) t :
  Forall P t ->
  Forall (fun c => f c = true /\ P c) (List.filter f t).
Proof.
  induction 1 as [|c t Hc Ht IH]; simpl; [constructor|].
  destruct (f c) eqn:E; [by constructor | done].
Qed.

Lemma preprocess_facts text :
  Forall (fun c => not_whitelisted c = false) (_preprocess_text text)
  /\ Forall (fun c => py_isspace c = true -> c = 32%N) (_preprocess_text text)
  /\ (length (_preprocess_text text) <= length (py_lower text))%nat.
Proof.
  unfold _preprocess_text.
  set (t0 := py_lower text).
  set (t1 := strip (re_sub (length t0) (Plus re_s) (u " ") t0)).
  assert (H1 : Forall (fun c => py_isspace c = true -> c = 32%N) t1).
  { apply strip_Forall, re_sub_spaces. done. }
  assert (L1 : (length t1 <= length t0)%nat).
  { etrans; [apply strip_length|]. apply re_sub_length. done. }
  rewrite re_sub_cls by done.
  pose proof (filter_Forall_both (fun c => negb (not_whitelisted c)) _ t1 H1) as H.
  split; [|split].
  - eapply Forall_impl; [exact H|]. intros c [Hc _]. by apply negb_true_iff.
  - eapply Forall_impl; [exact H|]. by intros c [_ Hc].
  - etrans; [apply filter_length_le|]. done.
Qed.

(** X5.  The text that [_preprocess_text] returns consists of characters
    of the white list only, its only white space character is the space
    U+0020, and it is no longer than the lower-cased input. *)
Theorem X5_preprocess_output text :
  Forall (fun c => not_whitelisted c = false) (_preprocess_text text)
  /\ Forall (fun c => py_isspace c = true -> c = 32%N) (_preprocess_text text)
  /\ (length (_preprocess_text text) <= length (py_lower text))%nat.
Proof. apply preprocess_facts. Qed.

Lemma Lit_percent : Lit (u "%") = Chr 37.
Proof. reflexivity. Qed.

Lemma requires_percent_Chr : requires 37 (Chr 37).
Proof. intros x Hx%N.eqb_eq. done. Qed.

(** X6.  Where [%] is neither a word character nor white space, as in
    CPython, [_preprocess_text] deletes every [%].  So in a preprocessed
    text no keyword that holds a [%] occurs, the pattern [\d+%] of the
    language detector does not match, and the percentage rule of
    [_detect_suspicious_numbers] never fires: that detector contributes at
    most 0.15, through its three money patterns. *)
Theorem X6_percent_never_survives text :
  py_isword 37 = false -> py_isspace 37 = false ->
  let t := _preprocess_text text in
  (37%N ∉ t)
  /\ (forall kw, 37%N ∈ kw -> contains t kw = false)
  /\ re_search (Seq (Plus re_d) (Lit (u "%"))) t = false
  /\ (_detect_suspicious_numbers t <= 0.15)%Q.
Proof.
  intros Hw Hs t.
  assert (Hno : 37%N ∉ t).
  { intros Hin.
    destruct (preprocess_facts text) as [Hwl _].
    rewrite Forall_forall in Hwl. specialize (Hwl _ Hin).
    unfold not_whitelisted in Hwl. rewrite Hw, Hs in Hwl.
    vm_compute in Hwl. discriminate. }
  split; [done|split; [|split]].
  - intros kw Hkw. destruct (contains t kw) eqn:E; [|done].
    exfalso. by apply Hno, (contains_elem _ _ E).
  - apply (re_search_requires 37); [|done].
    right. rewrite Lit_percent. apply requires_percent_Chr.
  - unfold _detect_suspicious_numbers.
    rewrite (re_search_requires 37 (Alt _ _) t); [| |done].
    + eapply Qle_trans; [apply Q.le_min_l|].
      unfold money_patterns. cbn [fold_left].
      repeat match goal with
             | |- context [re_search ?r t] => destruct (re_search r t)
             end; lra.
    + rewrite !Lit_percent. split.
      * right. left. apply requires_percent_Chr.
      * right. right. right. apply requires_percent_Chr.
Qed.

End Preprocess.

Lemma X6_witness :
  let t := _preprocess_text (u "年化收益 30%，稳赚！100%治愈") in
  (37%N ∉ t)
  /\ (forall kw, 37%N ∈ kw -> contains t kw = false)
  /\ re_search (Seq (Plus re_d) (Lit (u "%"))) t = false
  /\ (_detect_suspicious_numbers t <= 0.15)%Q.
Proof. apply (@X6_percent_never_survives basic_unicode); reflexivity. Defined.

(** ** The cache key *)

Lemma utf8_encode_char_None c :
  utf8_encode_char c = None <-> unencodable c = true.
Proof.
  unfold utf8_encode_char, unencodable.
  destruct (N.ltb_spec c 128) as [L1|L1];
    [|destruct (N.ltb_spec c 2048) as [L2|L2];
      [|destruct (N.ltb_spec c 65536) as [L3|L3];
        [|destruct (N.ltb_spec c 1114112) as [L4|L4]]]].
  - split; [done|]. intros [[Hx Hy]%andb_true_iff|Hx]%orb_true_iff;
      apply N.leb_le in Hx; lia.
  - split; [done|]. intros [[Hx Hy]%andb_true_iff|Hx]%orb_true_iff;
      apply N.leb_le in Hx; lia.
  - destruct ((55296 <=? c)%N && (c <=? 57343)%N) eqn:E; simpl.
    + done.
    + split; [done|]. intros Hx%N.leb_le. lia.
  - split; [done|]. intros [[Hx Hy]%andb_true_iff|Hx]%orb_true_iff.
    + apply N.leb_le in Hy. lia.
    + apply N.leb_le in Hx. lia.
  - split; [intros _|done]. apply orb_true_iff. right. apply N.leb_le. lia.
Qed.

Lemma utf8_encode_None text :
  utf8_encode text = None <-> Exists (fun c => unencodable c = true) text.
Proof.
  induction text as [|c text IH]; simpl.
  - split; [done|]. intros H. inversion H.
  - rewrite Exists_cons, <- IH, <- utf8_encode_char_None.
    destruct (utf8_encode_char c), (utf8_encode text); split;
      first [ done | by left | by right | by intros [?|?] ].
Qed.

Lemma hex_digit_ok d : (d < 16)%N -> is_hex_char (hex_digit d) = true.
Proof.
  intros Hd. unfold is_hex_char, hex_digit.
  destruct (N.ltb_spec d 10); apply orb_true_iff; [left|right];
    apply andb_true_iff; split; apply N.leb_le; lia.
Qed.

Lemma hex_byte_ok x :
  Forall (fun c => is_hex_char c = true) (hex_byte (x mod 256)).
Proof.
  assert (x mod 256 < 256)%N by (apply N.mod_lt; lia).
  unfold hex_byte. repeat constructor; apply hex_digit_ok.
  - apply N.Div0.div_lt_upper_bound. lia.
  - apply N.mod_lt. lia.
Qed.

Lemma md5_hexdigest_format bs :
  length (md5_hexdigest bs) = 32%nat
  /\ Forall (fun c => is_hex_char c = true) (md5_hexdigest bs).
Proof.
  unfold md5_hexdigest.
  destruct (md5_blocks _ _ _) as [[[a b] c] d].
  unfold le_bytes32. cbn [seq map app flat_map].
  split; [reflexivity|].
  repeat (apply Forall_app; split); try apply hex_byte_ok; constructor.
Qed.

(** X7.  [_generate_cache_key] raises exactly on the texts that hold a
    surrogate (or a code point beyond U+10FFFF, which no [str] has), and
    what it raises is [UnicodeEncodeError]; otherwise the key is a string of
    32 lower-case hexadecimal digits. *)
Theorem X7_cache_key_format text :
  ((exists e, _generate_cache_key text = inl e)
   <-> Exists (fun c => unencodable c = true) text)
  /\ (forall e, _generate_cache_key text = inl e -> e = UnicodeEncodeError)
  /\ (forall key, _generate_cache_key text = inr key ->
      length key = 32%nat /\ Forall (fun c => is_hex_char c = true) key).
Proof.
  unfold _generate_cache_key. rewrite <- utf8_encode_None.
  destruct (utf8_encode text) as [bs|]; split; [|split| |split].
  - split; [by intros [? [=]] | done].
  - by intros e [=].
  - intros key [= <-]. apply md5_hexdigest_format.
  - split; [done | eauto].
  - by intros e [= <-].
  - by intros key [=].
Qed.

(** ** The cache *)

(** X8.  On a dictionary (distinct keys), [_cleanup_cache] leaves a cache
    of at most 1000 entries as it is and cuts a larger one down to its newer
    half, the [n - n/2] entries inserted last, in their order.  One call
    brings the size back to at most 1000 only from sizes up to 2000. *)
Theorem X8_cleanup_cache c :
  NoDup c.*1 ->
  ((length c <= 1000)%nat -> _cleanup_cache c = c)
  /\ ((1000 < length c)%nat ->
      _cleanup_cache c = drop (length c / 2) c
      /\ length (_cleanup_cache c) = (length c - length c / 2)%nat)
  /\ ((length c <= 2000)%nat -> (length (_cleanup_cache c) <= 1000)%nat).
Proof.
  intros Hnd. rewrite cleanup_cache_drop by done.
  destruct (Nat.ltb_spec 1000 (length c)) as [Hgt|Hle].
  - split; [lia|split].
    + intros _. split; [done|]. by rewrite length_drop.
    + intros H. rewrite length_drop.
      assert (length c <= 2 * (length c / 2) + 1)%nat.
      { pose proof (Nat.div_mod_eq (length c) 2).
        pose proof (Nat.mod_upper_bound (length c) 2). lia. }
      lia.
  - split; [done|split; [lia|done]].
Qed.

(** X9.  A put of a new key can be read back, whether or not it evicts:
    the key is bound to the reference put.  Every other binding of the cache
    after the put was a binding before it, and no key appears that was not
    there. *)
Theorem X9_cache_put_get c k a :
  NoDup c.*1 -> k ∉ c.*1 ->
  dict_get (cache_put c k a) k = Some a
  /\ (forall k' a', k' <> k ->
        dict_get (cache_put c k a) k' = Some a' -> dict_get c k' = Some a')
  /\ (forall k', k' <> k ->
        dict_get c k' = None -> dict_get (cache_put c k a) k' = None).
Proof.
  intros Hnd Hk.
  destruct (cache_put_new_facts c k a Hnd Hk) as (Hnd' & Hget & Hin & _).
  split; [done|split].
  - intros k' a' Hne Hg. apply dict_get_Some, Hin in Hg as [Hg|[= -> ->]];
      [|done]. by apply dict_get_NoDup.
  - intros k' Hne Hnone. apply dict_get_None. apply dict_get_None in Hnone.
    intros (e & He1 & He2)%list_elem_of_fmap.
    apply Hin in He2 as [He2| ->]; [|done].
    apply Hnone. apply list_elem_of_fmap. eauto.
Qed.

Lemma X8_witness :
  let c := numbered_entries 1003 in
  _cleanup_cache c = drop (length c / 2) c
  /\ length (_cleanup_cache c) = (length c - length c / 2)%nat.
Proof.
  intros c.
  assert (Hnd : NoDup c.*1).
  { apply (bool_decide_unpack (NoDup c.*1)). vm_compute. exact I. }
  apply (proj1 (proj2 (X8_cleanup_cache c Hnd))).
  apply Nat.ltb_lt. vm_compute. reflexivity.
Defined.

Lemma X9_witness :
  let c := numbered_entries 1000 in
  let k := u "new" in
  dict_get (cache_put c k 1000%nat) k = Some 1000%nat
  /\ (forall k' a', k' <> k ->
        dict_get (cache_put c k 1000%nat) k' = Some a' -> dict_get c k' = Some a')
  /\ (forall k', k' <> k ->
        dict_get c k' = None -> dict_get (cache_put c k 1000%nat) k' = None).
Proof.
  intros c k. apply X9_cache_put_get.
  - apply (bool_decide_unpack (NoDup c.*1)). vm_compute. exact I.
  - apply (bool_decide_unpack (k ∉ c.*1)). vm_compute. exact I.
Defined.

(** ** The statistics *)

Lemma update_statistics_counts st r pt :
  let st' := _update_statistics st r pt in
  total_detections st' = (total_detections st + 1)%N
  /\ safe_count st'
     = (safe_count st + if bool_decide (level r = SAFE) then 1 else 0)%N
  /\ warning_count st'
     = (warning_count st + if bool_decide (level r = WARNING) then 1 else 0)%N
  /\ danger_count st'
     = (danger_count st + if bool_decide (level r = DANGER) then 1 else 0)%N.
Proof.
  unfold _update_statistics. cbn [total_detections safe_count warning_count danger_count].
  repeat split; case_bool_decide; lia.
Qed.

Lemma update_statistics_consistent st r pt :
  stats_consistent st -> stats_consistent (_update_statistics st r pt).
Proof.
  unfold stats_consistent. intros H.
  destruct (update_statistics_counts st r pt) as (-> & -> & -> & ->).
  destruct (level r); repeat case_bool_decide; try congruence; lia.
Qed.

Section Statistics.
Context {U : Unicode}.

Lemma detect_text_stats_consistent w text id pt :
  stats_consistent (statistics (self w)) ->
  stats_consistent (statistics (self (detect_text_wrapped w text id pt).2)).
Proof.
  intros H.
  destruct (detect_text_outcome w text id pt) as [e He|key a Hk Ha|key Hk Hnone];
    simpl; [done..|].
  by apply update_statistics_consistent.
Qed.

Lemma reachable_stats_consistent w :
  reachable w -> stats_consistent (statistics (self w)).
Proof.
  induction 1 as [|w text id pt _ IH|w id pt _ IH|w _ IH].
  - reflexivity.
  - rewrite detect_text_world. by apply detect_text_stats_consistent.
  - rewrite initialize_world. by apply detect_text_stats_consistent.
  - exact IH.
Qed.

(** X10.  [_update_statistics] counts one more detection and adds one to
    the counter of the level of the result, and to no other.  So in every
    state the engine reaches the counters add up: the total is the sum of
    the safe, warning and danger counts. *)
Theorem X10_statistics_add_up :
  (forall st r pt,
     let st' := _update_statistics st r pt in
     total_detections st' = (total_detections st + 1)%N
     /\ safe_count st'
        = (safe_count st + if bool_decide (level r = SAFE) then 1 else 0)%N
     /\ warning_count st'
        = (warning_count st
           + if bool_decide (level r = WARNING) then 1 else 0)%N
     /\ danger_count st'
        = (danger_count st
           + if bool_decide (level r = DANGER) then 1 else 0)%N)
  /\ (forall w,
        reachable w ->
        total_detections (statistics (self w))
        = (safe_count (statistics (self w))
           + warning_count (statistics (self w))
           + danger_count (statistics (self w)))%N).
Proof.
  split; [apply update_statistics_counts | apply reachable_stats_consistent].
Qed.

End Statistics.

(** The running average. *)
Lemma record_all_mean rs : forall st,
  let st' := record_all st rs in
  total_detections st' = (total_detections st + N.of_nat (length rs))%N
  /\ (rs <> [] ->
      (avg_processing_time st' * inject_Z (Z.of_N (total_detections st'))
       == avg_processing_time st * inject_Z (Z.of_N (total_detections st))
          + sum_Q rs.*2)%Q).
Proof.
  induction rs as [|[r pt] rs IH]; intros st st'.
  - subst st'. simpl. split; [lia|done].
  - subst st'.
    change (record_all st ((r, pt) :: rs))
      with (record_all (_update_statistics st r pt) rs).
    destruct (IH (_update_statistics st r pt)) as [Ht Ha].
    destruct (update_statistics_counts st r pt) as (Ht1 & _).
    cbn zeta in *. split.
    + rewrite Ht, Ht1. cbn [length]. lia.
    + intros _.
      assert (Hstep :
        (avg_processing_time (_update_statistics st r pt)
         * inject_Z (Z.of_N (total_detections (_update_statistics st r pt)))
         == avg_processing_time st * inject_Z (Z.of_N (total_detections st))
            + pt)%Q).
      { rewrite Ht1. unfold _update_statistics. cbn [avg_processing_time].
        set (n := total_detections st).
        assert (Hn : ~ (inject_Z (Z.of_N (n + 1)) == 0)%Q).
        { change 0%Q with (inject_Z 0). rewrite inject_Z_injective. lia. }
        replace (Z.of_N (n + 1) - 1)%Z with (Z.of_N n) by lia.
        field. exact Hn. }
      destruct rs as [|e rs'].
      * cbn [record_all fold_left fmap list_fmap sum_Q fold_right].
        cbn [snd]. rewrite Hstep. simpl. lra.
      * rewrite Ha by done. rewrite Hstep.
        cbn [fmap list_fmap sum_Q fold_right snd]. simpl. lra.
Qed.

(** X11.  After any non-empty sequence of recordings that starts from the
    initial statistics, the total is the number of recordings and the
    average processing time is their arithmetic mean. *)
Theorem X11_running_mean rs :
  rs <> [] ->
  total_detections (record_all DetectionStats_init rs) = N.of_nat (length rs)
  /\ (avg_processing_time (record_all DetectionStats_init rs)
      == sum_Q rs.*2 / inject_Z (Z.of_nat (length rs)))%Q.
Proof.
  intros Hne. destruct (record_all_mean rs DetectionStats_init) as [Ht Ha].
  cbn zeta in *. specialize (Ha Hne). simpl in Ht. split; [lia|].
  assert (Hn : ~ (inject_Z (Z.of_nat (length rs)) == 0)%Q).
  { change 0%Q with (inject_Z 0). rewrite inject_Z_injective.
    destruct rs; [done|simpl; lia]. }
  rewrite Ht in Ha. simpl in Ha.
  replace (Z.of_N (0 + N.of_nat (length rs))) with (Z.of_nat (length rs)) in Ha
    by lia.
  apply (Qmult_inj_r _ _ _ Hn). rewrite Ha. field. exact Hn.
Qed.

Lemma X11_witness :
  total_detections
    (record_all DetectionStats_init
       [(fallback_result (u "a"), 0.25%Q); (fallback_result (u "b"), 0.5%Q);
        (fallback_result (u "c"), 0.75%Q)])
  = N.of_nat
      (length [(fallback_result (u "a"), 0.25%Q); (fallback_result (u "b"), 0.5%Q);
               (fallback_result (u "c"), 0.75%Q)])
  /\ (avg_processing_time
        (record_all DetectionStats_init
           [(fallback_result (u "a"), 0.25%Q); (fallback_result (u "b"), 0.5%Q);
            (fallback_result (u "c"), 0.75%Q)])
      == sum_Q [(fallback_result (u "a"), 0.25%Q); (fallback_result (u "b"), 0.5%Q);
                (fallback_result (u "c"), 0.75%Q)].*2
         / inject_Z
             (Z.of_nat
                (length [(fallback_result (u "a"), 0.25%Q);
                         (fallback_result (u "b"), 0.5%Q);
                         (fallback_result (u "c"), 0.75%Q)])))%Q.
Proof. apply X11_running_mean. discriminate. Defined.

(** ** The callers of [detect_text] *)

Section Callers.
Context {U : Unicode}.

Lemma gather_detect_spec calls : forall w,
  (gather_detect w calls).2 = detect_all w calls
  /\ (gather_detect w calls).1
     = match calls with [] => inr [] | _ :: _ => inl NameError end.
Proof.
  induction calls as [|[[text id] pt] calls IH]; intros w; [done|].
  cbn [gather_detect detect_all fold_left fst snd].
  pose proof (detect_text_raises w text id pt) as Hr.
  destruct (detect_text w text id pt) as [r w1]. simpl in Hr. subst r.
  destruct (IH w1) as [Hw Hres].
  destruct (gather_detect w1 calls) as [rs w2]. simpl in *.
  by subst w2.
Qed.

Lemma detect_all_reachable calls : forall w,
  reachable w -> reachable (detect_all w calls).
Proof.
  induction calls as [|[[text id] pt] calls IH]; intros w Hw; [done|].
  apply IH. by apply reachable_detect.
Qed.

(** X12.  [detect_batch] returns the empty list for every batch: for the
    empty one because there is nothing to detect, for any other because
    each [detect_text] raises and the handler answers with the empty list.
    All the same every text of the batch has been detected, in the order of
    the batch: the engine is in the state that these detections leave, one
    after the other. *)
Theorem X12_detect_batch_returns_nothing w calls :
  (detect_batch w calls).1 = []
  /\ (detect_batch w calls).2 = detect_all w calls
  /\ (forall text id pt,
        (detect_batch w [(text, id, pt)]).2
        = (detect_text_wrapped w text id pt).2).
Proof.
  unfold detect_batch. split; [|split].
  - destruct (gather_detect_spec calls w) as [_ Hres].
    destruct (gather_detect w calls) as [[e|results] w']; simpl in *; [done|].
    destruct calls; by inversion Hres.
  - destruct (gather_detect_spec calls w) as [Hw _].
    by destruct (gather_detect w calls) as [[e|results] w'].
  - intros text id pt.
    destruct (gather_detect_spec [(text, id, pt)] w) as [Hw _].
    destruct (gather_detect w [(text, id, pt)]) as [[e|results] w'];
      simpl in *; subst w'; apply detect_text_world.
Qed.



End Callers.

(** ** The predictors and the ensemble *)

Section Ensemble_lemmas.
Import AIModelManager Ensemble.

(** Membership of a given level in the list of the three. *)
Ltac solve_level :=
  unfold level_names;
  first [ apply list_elem_of_here
        | apply list_elem_of_further, list_elem_of_here
        | apply list_elem_of_further, list_elem_of_further, list_elem_of_here ].

Lemma risk_levels_lookup i lvl : risk_levels !! i = Some lvl -> lvl ∈ level_names.
Proof.
  destruct i as [|[|[|i]]]; simpl; intros [= <-]; solve_level.
Qed.

Lemma fallback_level : prediction _get_fallback_result ∈ level_names.
Proof. simpl. solve_level. Qed.

Lemma parse_chatglm_level response :
  prediction (_parse_chatglm_response response) ∈ level_names.
Proof.
  unfold _parse_chatglm_response, level_names.
  repeat match goal with |- context [if ?b then _ else _] => destruct b end;
    simpl; solve_level.
Qed.

Lemma predict_mock_level text : prediction (_predict_mock text) ∈ level_names.
Proof.
  unfold _predict_mock, level_names.
  repeat match goal with |- context [if ?b then _ else _] => destruct b end;
    simpl; solve_level.
Qed.

Lemma predict_chatglm_level response :
  prediction (_predict_chatglm response) ∈ level_names.
Proof.
  destruct response; [apply fallback_level | apply parse_chatglm_level].
Qed.

Lemma predict_bert_level output :
  prediction (_predict_bert output) ∈ level_names.
Proof.
  destruct output as [e|[i c]]; simpl; [apply fallback_level|].
  destruct (risk_levels !! i) as [lvl|] eqn:E; [|apply fallback_level].
  destruct (bert_explanations !! i); [|apply fallback_level].
  simpl. by apply (risk_levels_lookup i).
Qed.

Lemma predict_llama_level output :
  prediction (_predict_llama output) ∈ level_names.
Proof.
  destruct output as [e|[i c]]; simpl; [apply fallback_level|].
  destruct (risk_levels !! i) as [lvl|] eqn:E; [|apply fallback_level].
  simpl. by apply (risk_levels_lookup i).
Qed.

(** What [predict] returns carries one of the three levels and the name of
    the configuration of the model. *)
Lemma predict_inr configs models tokenizers B model_id text p :
  predict configs models tokenizers B model_id text = inr p ->
  prediction p ∈ level_names
  /\ exists config, dict_get configs model_id = Some config
                    /\ model p = Some (name config).
Proof.
  unfold predict.
  destruct (negb (bool_decide (model_id ∈ models))); [done|].
  destruct (negb (bool_decide (model_id ∈ tokenizers))); [done|].
  destruct (dict_get configs model_id) as [config|]; [|done].
  intros [= <-]. split; [|eauto]. simpl.
  destruct (type config);
    auto using predict_chatglm_level, predict_bert_level, predict_llama_level,
      predict_mock_level.
Qed.

Context {U : Unicode}.

Lemma gathered_inr configs models tokenizers B text :
  Forall (fun p =>
            prediction p ∈ level_names
            /\ exists model_id config,
                 model_id ∈ models
                 /\ dict_get configs model_id = Some config
                 /\ model p = Some (name config))
    (gathered configs models tokenizers B text).
Proof.
  unfold gathered. apply Forall_forall. intros p Hp.
  apply list_elem_of_omap in Hp as (res & Hres & Hp).
  destruct res as [e|p']; [done|]. injection Hp as ->.
  apply list_elem_of_fmap in Hres as (model_id & Hpred & Hid).
  apply list_elem_of_In, filter_In in Hid as [Hid%list_elem_of_In _].
  symmetry in Hpred. apply predict_inr in Hpred as (Hl & config & Hc & Hm).
  split; [done|]. eauto.
Qed.

(** X14.  [ensemble_predict] does not raise, whatever models are loaded and
    whatever their backends do: it returns the fallback prediction
    (warning, 0.5) when no prediction was gathered, as when none of the
    loaded models has a weight, and otherwise the outcome of the vote on the
    gathered predictions, whose verdict is one of the three levels.  The
    vote finds every prediction under one of its three keys, since every
    predictor answers with one of the three levels. *)
Theorem X14_ensemble_predict_total configs models tokenizers B text :
  let predictions := gathered configs models tokenizers B text in
  Forall (fun p => prediction p ∈ level_names) predictions
  /\ (predictions = [] ->
      ensemble_predict configs models tokenizers B text
      = inr (inl _get_fallback_result))
  /\ (predictions <> [] ->
      exists e,
        ensemble_predict configs models tokenizers B text = inr (inr e)
        /\ final_prediction e ∈ level_names
        /\ model_predictions e = predictions)
  /\ ((forall model_id, model_id ∈ models ->
         dict_mem ensemble_weights model_id = false) ->
      predictions = []).
Proof.
  intros predictions.
  assert (Hvalid : Forall (fun p => prediction p ∈ level_names) predictions).
  { eapply Forall_impl; [apply gathered_inr|]. by intros p [? _]. }
  split; [done|]. unfold ensemble_predict. fold predictions.
  split; [|split].
  - intros ->. by rewrite bool_decide_eq_true_2.
  - intros Hne. rewrite bool_decide_eq_false_2 by done.
    destruct (weighted_voting_general predictions ensemble_weights Hne Hvalid)
      as (e & He & _ & Hfin & _).
    exists e. rewrite He. split; [done|split; [done|]].
    unfold _weighted_voting in He.
    destruct (fold_left _ _ _) as [?|t]; [done|].
    destruct (py_max_key _); [|done].
    destruct (bool_decide _); [done|]. by injection He as <-.
  - intros Hno. subst predictions. clear Hvalid. unfold gathered.
    replace (List.filter _ models) with (@nil pystr); [done|].
    symmetry. induction models as [|m ms IH]; [done|]. simpl.
    rewrite (Hno m) by left. apply IH. intros m' Hm'. apply Hno. by right.
Qed.

Lemma sum_Q_cons x l : sum_Q (x :: l) = (x + sum_Q l)%Q.
Proof. reflexivity. Qed.

Lemma weighted_confidence_default weights predictions :
  Forall (fun p => weight_of weights p = 0.1%Q) predictions ->
  (weighted_confidence weights predictions
   == 0.1 * sum_Q (confidence <$> predictions))%Q.
Proof.
  induction 1 as [|p ps Hp _ IH]; [reflexivity|].
  cbn [weighted_confidence fold_right] in *.
  rewrite fmap_cons, sum_Q_cons, Hp, IH. lra.
Qed.

Lemma vote_mass_default weights lvl predictions :
  Forall (fun p => weight_of weights p = 0.1%Q) predictions ->
  (vote_mass weights lvl predictions
   == 0.1 * sum_Q (confidence
                     <$> List.filter
                           (fun p => bool_decide (prediction p = lvl))
                           predictions))%Q.
Proof.
  induction 1 as [|p ps Hp _ IH]; [reflexivity|].
  cbn [vote_mass fold_right List.filter] in *.
  destruct (bool_decide (prediction p = lvl));
    rewrite ?fmap_cons, ?sum_Q_cons, ?Hp, IH; lra.
Qed.

(** X15.  The weights 0.4, 0.3 and 0.3 of [ensemble_predict] are never
    applied.  [predict] writes the name of the configuration into the
    prediction ("ChatGLM-6B", "Chinese-BERT-wwm", "LLaMA-7B-Chinese"), and
    the vote looks up the lower-cased name in a table whose keys are the
    model ids ("chatglm", "bert", "llama"): no name is a key, so every
    model votes with the default weight 0.1.  The vote mass of a level is a
    tenth of the sum of the confidences of the predictions for it, and the
    confidence of the ensemble is a tenth of the mean confidence. *)
Theorem X15_ensemble_weights_not_applied models tokenizers B text :
  Forall (fun c => dict_get ensemble_weights (py_lower (name c.2)) = None)
    _init_model_configs ->
  let predictions := gathered _init_model_configs models tokenizers B text in
  Forall (fun p => weight_of ensemble_weights p = 0.1%Q) predictions
  /\ (forall e,
        ensemble_predict _init_model_configs models tokenizers B text
        = inr (inr e) ->
        (final_confidence e
         == 0.1 * (sum_Q (confidence <$> predictions)
                   / inject_Z (Z.of_nat (length predictions))))%Q
        /\ (forall lvl, lvl ∈ level_names ->
            exists v,
              dict_get (vote_scores e) lvl = Some v
              /\ (v == 0.1 * sum_Q
                             (confidence
                                <$> List.filter
                                      (fun p => bool_decide (prediction p = lvl))
                                      predictions))%Q)).
Proof.
  intros Hnames predictions.
  assert (Hw : Forall (fun p => weight_of ensemble_weights p = 0.1%Q) predictions).
  { eapply Forall_impl; [apply gathered_inr|].
    intros p (_ & model_id & config & _ & Hc & Hm).
    unfold weight_of. rewrite Hm. simpl.
    rewrite Forall_forall in Hnames.
    apply dict_get_Some in Hc. specialize (Hnames _ Hc). simpl in Hnames.
    by rewrite Hnames. }
  split; [done|]. intros e He.
  unfold ensemble_predict in He. fold predictions in He.
  destruct (bool_decide (predictions = [])) eqn:Hne; [done|].
  apply bool_decide_eq_false in Hne.
  assert (Hvalid : Forall (fun p => prediction p ∈ level_names) predictions).
  { eapply Forall_impl; [apply gathered_inr|]. by intros p [? _]. }
  destruct (weighted_voting_general predictions ensemble_weights Hne Hvalid)
    as (e' & He' & Hmass & _ & _ & Hconf).
  rewrite He' in He. injection He as <-. split.
  - rewrite Hconf, (weighted_confidence_default _ _ Hw).
    unfold Qdiv. ring.
  - intros lvl Hl. destruct (Hmass lvl Hl) as (v & Hv & E).
    exists v. split; [done|]. by rewrite E, (vote_mass_default _ _ _ Hw).
Qed.

End Ensemble_lemmas.

Section Ensemble_run.
Import AIModelManager Ensemble.

(** X15 with the three models loaded on the mock backends. *)
Lemma X15_witness :
  let predictions :=
    gathered _init_model_configs models_all models_all backends_mock
      text_scam in
  Forall (fun p => weight_of ensemble_weights p = 0.1%Q) predictions
  /\ (forall e,
        ensemble_predict _init_model_configs models_all models_all
          backends_mock text_scam
        = inr (inr e) ->
        (final_confidence e
         == 0.1 * (sum_Q (confidence <$> predictions)
                   / inject_Z (Z.of_nat (length predictions))))%Q
        /\ (forall lvl, lvl ∈ level_names ->
            exists v,
              dict_get (vote_scores e) lvl = Some v
              /\ (v == 0.1 * sum_Q
                             (confidence
                                <$> List.filter
                                      (fun p => bool_decide (prediction p = lvl))
                                      predictions))%Q)).
Proof.
  apply (@X15_ensemble_weights_not_applied basic_unicode).
  repeat constructor.
Defined.

End Ensemble_run.

